(** * gmail-processor: webhook ingestion pipeline and bounded Redis store

    A shallow embedding of
      - [app/api/gmail/webhook/route.ts]  (extractEmailDetails, fetchNewEmails, POST)
      - [lib/email-store-kv.ts]           (class UpstashEmailStore)
    and the properties of the design document that are about them.

    Conventions.
      - A JavaScript string is a [string]: a sequence of code units below 256.
      - [null] and [undefined] are both [None]; [x?.f] is a match on the option.
      - The clock is an integer number of milliseconds, a [Z]; a numeric
        cursor is carried as the text JavaScript prints for it.
      - [console.log] / [console.error] have no effect on the model.
      - An [await]ed call either returns or throws; the handler runs alone.
      - What the Node runtime and the two remote services do is not code of the
        repository: base64/UTF-8 decoding, JSON parsing and date formatting
        (class [Node]), the answers of the mail provider (class [Provider]) and
        the failures of the key-value backend (class [Backend]) are parameters.
        The commands of the backend follow the Redis command reference. *)

From Stdlib Require Import ZArith List Ascii String Lia.
From stdpp Require Import base option list strings pretty gmap fin_maps.

Local Open Scope string_scope.
Local Open Scope Z_scope.

(** ** JavaScript strings *)

Module Js.

(** [c.toLowerCase()] on one code unit: A-Z, and the capital letters of
    Latin-1 (U+00C0..U+00DE except the multiplication sign U+00D7). *)
Definition lower_char (c : ascii) : ascii :=
  let n := nat_of_ascii c in
  if ((65 <=? n)%nat && (n <=? 90)%nat)
     || ((192 <=? n)%nat && (n <=? 222)%nat && negb (n =? 215)%nat)
  then ascii_of_nat (n + 32) else c.

Fixpoint toLowerCase (s : string) : string :=
  match s with
  | EmptyString => EmptyString
  | String c s' => String (lower_char c) (toLowerCase s')
  end.

(** [s.startsWith(p)] *)
Definition startsWith (s p : string) : bool := String.prefix p s.

(** [s.includes(p)] *)
Fixpoint includes (s p : string) : bool :=
  String.prefix p s ||
  match s with
  | EmptyString => false
  | String _ s' => includes s' p
  end.

(** [s.substring(0, n)] for a natural [n] *)
Definition substring0 (n : nat) (s : string) : string := String.substring 0 n s.

(** Truthiness of a [string | null | undefined] value. *)
Definition truthy (o : option string) : bool :=
  match o with
  | Some s => negb (String.eqb s "")
  | None => false
  end.

(** [o || ''] *)
Definition or_empty (o : option string) : string :=
  match o with
  | Some s => s
  | None => ""
  end.

(** [/^\d+$/.test(s)]: one or more characters, each of them 0..9
    (without the [m] flag [$] matches at the very end only). *)
Definition is_digit (c : ascii) : bool :=
  let n := nat_of_ascii c in (48 <=? n)%nat && (n <=? 57)%nat.

Fixpoint all_digits (s : string) : bool :=
  match s with
  | EmptyString => true
  | String c s' => is_digit c && all_digits s'
  end.

Definition matches_digits (s : string) : bool :=
  match s with
  | EmptyString => false
  | String _ _ => all_digits s
  end.

End Js.

(** ** Data model *)

(** [historyId: string | number]. The code prints the cursor, passes it on and
    stores it, and does nothing else with it, so a number is carried as the
    text that [String] prints for it: its digits when it is an integer below
    1e21 that a double holds exactly (the provider's cursors), and otherwise
    whatever JavaScript prints, such as [1e+21] or [1.5]. *)
Variant HistoryId :=
  | HStr (s : string)
  | HNum (printed : string).

(** [String(historyId)], also what a template literal prints. *)
Definition String_ (h : HistoryId) : string :=
  match h with
  | HStr s => s
  | HNum printed => printed
  end.

Module EmailDetails.
Record t := mk {
  id : string;
  threadId : string;
  subject : string;
  from : string;
  to : string;
  date : string;
  snippet : string;
  body : option string
}.
End EmailDetails.

Module StoredEmail.
Record t := mk {
  id : string;
  threadId : string;
  subject : string;
  from : string;
  to : string;
  date : string;
  snippet : string;
  body : option string;
  receivedAt : string;
  historyId : HistoryId
}.
End StoredEmail.

(** [interface GmailMessage] *)
Module Gmail.
Record Header := { name : string; value : string }.
Record Body := { data : option string }.
Record Part := { mimeType : string; body : option Body }.
Record Payload := {
  headers : option (list Header);
  flat : option Body;                 (* [payload.body] *)
  parts : option (list Part)
}.
Record Message := {
  id : option string;
  threadId : option string;
  payload : option Payload;
  snippet : option string
}.

(** [x?.body?.data] *)
Definition data_of (b : option Body) : option string :=
  match b with
  | Some b' => data b'
  | None => None
  end.
End Gmail.

(** [interface PubSubMessage], [interface GmailNotification] *)
Module PubSub.
Record Inner := {
  data : option string;
  messageId : string;
  publishTime : string
}.
Record Message := {
  message : option Inner;
  subscription : string
}.
End PubSub.

Record GmailNotification := {
  emailAddress : string;
  historyId : HistoryId
}.

(** What parsing a JSON text gives: a [SyntaxError], the value [null] (every
    property access on it is a [TypeError]), or an object of the declared type. *)
Variant Parsed (A : Type) :=
  | Malformed
  | Null
  | Obj (a : A).
Arguments Malformed {A}.
Arguments Null {A}.
Arguments Obj {A} a.

(** What the provider's endpoints answer. *)
Module Api.
Record MessageRef := { id : option string }.
Record MessageAdded := { message : option MessageRef }.
Record HistoryRecord := { messagesAdded : option (list MessageAdded) }.
Record HistoryResponse := { history : option (list HistoryRecord) }.
Record MessageList := { messages : option (list MessageRef) }.
End Api.

(** One request sent to the mail provider. *)
Variant ProviderCall :=
  | HistoryList (startHistoryId : string)
  | MessagesList
  | MessagesGet (id : string).

(** ** The runtime and the two remote services *)

Class Node := {
  (** [Buffer.from(data, 'base64').toString('utf-8')] *)
  base64_utf8 : string -> string;
  (** [JSON.parse(text)] at type [GmailNotification] *)
  JSON_parse : string -> Parsed GmailNotification;
  (** [new Date(ms).toISOString()] *)
  toISOString : Z -> string
}.

(** The answer to a request depends on the request and on how many remote
    calls were made before it; [None] is a rejected promise. *)
Class Provider := {
  history_list : nat -> string -> option Api.HistoryResponse;
  messages_list : nat -> option Api.MessageList;
  messages_get : nat -> string -> option Gmail.Message
}.

(** [redis_fault n]: the backend command issued as remote call number [n]
    fails (the client throws) and leaves the backend as it was. *)
Class Backend := {
  redis_fault : nat -> bool
}.

(** ** Effects: state and exceptions *)

Variant Exn := TypeError | SyntaxError | ProviderError | RedisError.

Variant Outcome (A : Type) :=
  | Ok (a : A)
  | Throw (e : Exn).
Arguments Ok {A} a.
Arguments Throw {A} e.

Definition M (St A : Type) : Type := St -> Outcome A * St.

Section Monad.
Context {St : Type}.

Definition ret {A} (a : A) : M St A := fun s => (Ok a, s).

Definition bind {A B} (m : M St A) (f : A -> M St B) : M St B :=
  fun s =>
    match m s with
    | (Ok a, s') => f a s'
    | (Throw e, s') => (Throw e, s')
    end.

Definition throw {A} (e : Exn) : M St A := fun s => (Throw e, s).

(** [try { m } catch (e) { h e }] *)
Definition try_catch {A} (m : M St A) (h : Exn -> M St A) : M St A :=
  fun s =>
    match m s with
    | (Ok a, s') => (Ok a, s')
    | (Throw e, s') => h e s'
    end.

(** [for (const x of l) { f x }] *)
Fixpoint for_each {A} (l : list A) (f : A -> M St unit) : M St unit :=
  match l with
  | [] => ret tt
  | x :: l' => bind (f x) (fun _ => for_each l' f)
  end.
End Monad.

Declare Scope js_scope.
Delimit Scope js_scope with js.
Notation "x <- c1 ;; c2" := (bind c1 (fun x => c2))
  (at level 100, c1 at next level, right associativity) : js_scope.
Notation "c1 ;; c2" := (bind c1 (fun _ => c2))
  (at level 100, right associativity) : js_scope.

(** ** State of the key-value backend and of the world around the handler *)

(** The keys the store uses. *)
Definition emailsKey : string := "gmail:emails".
Definition email_key (id : string) : string := "gmail:email:" +:+ id.
Definition statsKey : string := "gmail:stats:lastReceived".

(** The keys are pairwise distinct for every id, so the backend is kept as
    three components: the list under [emailsKey], the entries under
    [email_key id] indexed by [id], and the scalar under [statsKey]. An entry
    with an expiry carries the instant (ms) at which it expires. *)
Record Redis := {
  emails : list StoredEmail.t;
  byId : gmap string (StoredEmail.t * Z);
  lastReceived : option (string * Z)
}.

Record World := {
  redis : Redis;
  now : Z;                       (* the clock, in ms *)
  tick : nat;                    (* remote calls made so far *)
  calls : list (ProviderCall * bool)
    (* requests sent to the provider, latest first, each with whether it was answered *)
}.

(** Time passes between two requests. *)
Definition elapse (dt : N) (w : World) : World :=
  {| redis := redis w; now := now w + Z.of_N dt; tick := tick w; calls := calls w |}.

(** *** Redis commands on the three components *)

Module Cmd.

(** Index arithmetic of LRANGE / LTRIM: negative indexes count from the
    end, out-of-range indexes are clamped, an empty range is [None]. *)
Definition range (len start stop : Z) : option (Z * Z) :=
  let start := if start <? 0 then len + start else start in
  let stop := if stop <? 0 then len + stop else stop in
  let start := if start <? 0 then 0 else start in
  if (stop <? start) || (len <=? start) then None
  else Some (start, if len <=? stop then len - 1 else stop).

Definition slice {A} (l : list A) (start stop : Z) : list A :=
  match range (Z.of_nat (length l)) start stop with
  | Some (a, b) => firstn (Z.to_nat (b - a + 1)) (skipn (Z.to_nat a) l)
  | None => []
  end.

(** An entry is readable while its expiry lies ahead. *)
Definition live {A} (t : Z) (e : A * Z) : option A :=
  if t <? snd e then Some (fst e) else None.

(** [LPUSH emailsKey v], answers the new length *)
Definition lpush (v : StoredEmail.t) (t : Z) (r : Redis) : Z * Redis :=
  (Z.of_nat (S (length (emails r))),
   {| emails := v :: emails r; byId := byId r; lastReceived := lastReceived r |}).

(** [LTRIM emailsKey start stop] *)
Definition ltrim (start stop : Z) (t : Z) (r : Redis) : unit * Redis :=
  (tt, {| emails := slice (emails r) start stop;
          byId := byId r; lastReceived := lastReceived r |}).

(** [LRANGE emailsKey start stop] *)
Definition lrange (start stop : Z) (t : Z) (r : Redis) : list StoredEmail.t * Redis :=
  (slice (emails r) start stop, r).

(** [LLEN emailsKey] *)
Definition llen (t : Z) (r : Redis) : Z * Redis :=
  (Z.of_nat (length (emails r)), r).

(** [SET (email_key id) v EX seconds] *)
Definition set_email (id : string) (v : StoredEmail.t) (ex : Z) (t : Z) (r : Redis)
  : unit * Redis :=
  (tt, {| emails := emails r;
          byId := <[id := (v, t + ex * 1000)]> (byId r);
          lastReceived := lastReceived r |}).

(** [GET (email_key id)] *)
Definition get_email (id : string) (t : Z) (r : Redis) : option StoredEmail.t * Redis :=
  (byId r !! id ≫= live t, r).

(** [SET statsKey v EX seconds] *)
Definition set_stats (v : string) (ex : Z) (t : Z) (r : Redis) : unit * Redis :=
  (tt, {| emails := emails r; byId := byId r;
          lastReceived := Some (v, t + ex * 1000) |}).

(** [GET statsKey] *)
Definition get_stats (t : Z) (r : Redis) : option string * Redis :=
  (lastReceived r ≫= live t, r).

(** A pipeline of [DEL (email_key id)], one per id, sent as one request. *)
Definition del_emails (ids : list string) (t : Z) (r : Redis) : unit * Redis :=
  (tt, {| emails := emails r;
          byId := foldl (fun m id => delete id m) (byId r) ids;
          lastReceived := lastReceived r |}).

(** [DEL emailsKey] *)
Definition del_list (t : Z) (r : Redis) : unit * Redis :=
  (tt, {| emails := []; byId := byId r; lastReceived := lastReceived r |}).

(** [DEL statsKey] *)
Definition del_stats (t : Z) (r : Redis) : unit * Redis :=
  (tt, {| emails := emails r; byId := byId r; lastReceived := None |}).

End Cmd.

(** ** Extract email details from Gmail message *)

Section Extract.

Context {node : Node}.

(** [headers.find((h) => h.name.toLowerCase() === name.toLowerCase())?.value || ''] *)
Definition getHeader (headers : list Gmail.Header) (name : string) : string :=
  match
    find (fun h => String.eqb (Js.toLowerCase (Gmail.name h)) (Js.toLowerCase name))
         headers
  with
  | Some h => Gmail.value h
  | None => ""
  end.

(** The [let body = ''; if ... else if ...] block of [extractEmailDetails]. *)
Definition extract_body (payload : option Gmail.Payload) : string :=
  let flat_data := match payload with
                   | Some p => Gmail.data_of (Gmail.flat p)
                   | None => None
                   end in
  if Js.truthy flat_data then base64_utf8 (Js.or_empty flat_data)
  else
    match payload with
    | Some p =>
        match Gmail.parts p with
        | Some ps =>
            let textPart :=
              find (fun q => String.eqb (Gmail.mimeType q) "text/plain") ps in
            let part_data := match textPart with
                             | Some q => Gmail.data_of (Gmail.body q)
                             | None => None
                             end in
            if Js.truthy part_data then base64_utf8 (Js.or_empty part_data)
            else ""
        | None => ""
        end
    | None => ""
    end.

Definition extractEmailDetails (message : Gmail.Message) : EmailDetails.t :=
  let headers := match Gmail.payload message with
                 | Some p => match Gmail.headers p with Some hs => hs | None => [] end
                 | None => []
                 end in
  let body := extract_body (Gmail.payload message) in
  {| EmailDetails.id := Js.or_empty (Gmail.id message);
     EmailDetails.threadId := Js.or_empty (Gmail.threadId message);
     EmailDetails.subject := getHeader headers "Subject";
     EmailDetails.from := getHeader headers "From";
     EmailDetails.to := getHeader headers "To";
     EmailDetails.date := getHeader headers "Date";
     EmailDetails.snippet := Js.or_empty (Gmail.snippet message);
     EmailDetails.body := Some (Js.substring0 1000 body) |}.

End Extract.

(** ** class UpstashEmailStore *)

Module Stats.
Record t := {
  totalEmails : Z;
  newestEmail : option string;
  oldestEmail : option string;
  lastReceived : option string
}.
End Stats.

Local Open Scope js_scope.

Section Store.

Context {node : Node} {backend : Backend}.

(** One command sent to the backend: it fails when the backend is down for
    this call, and runs at the current instant otherwise. *)
Definition redis_call {A} (cmd : Z -> Redis -> A * Redis) : M World A :=
  fun w =>
    if redis_fault (tick w)
    then (Throw RedisError,
          {| redis := redis w; now := now w; tick := S (tick w); calls := calls w |})
    else
      let (a, r) := cmd (now w) (redis w) in
      (Ok a, {| redis := r; now := now w; tick := S (tick w); calls := calls w |}).

(** [Date.now()] and [new Date().toISOString()] *)
Definition Date_now : M World Z := fun w => (Ok (now w), w).
Definition new_Date_toISOString : M World string :=
  fun w => (Ok (toISOString (now w)), w).

Definition maxEmails : Z := 100.

(** [60 * 60 * 24 * 30], the seconds of 30 days *)
Definition thirty_days : Z := 60 * 60 * 24 * 30.

Definition updateStats : M World unit :=
  iso <- new_Date_toISOString ;;
  redis_call (Cmd.set_stats iso thirty_days).

Definition addEmail (email : StoredEmail.t) : M World bool :=
  try_catch
    (redis_call (Cmd.lpush email) ;;
     redis_call (Cmd.ltrim 0 (maxEmails - 1)) ;;
     redis_call (Cmd.set_email (StoredEmail.id email) email thirty_days) ;;
     updateStats ;;
     ret true)
    (fun _ => ret false).

(** [getEmails(limit: number = 50)]; the default is the caller's business. *)
Definition getEmails (limit : Z) : M World (list StoredEmail.t) :=
  try_catch
    (emails <- redis_call (Cmd.lrange 0 (limit - 1)) ;;
     ret emails)
    (fun _ => ret []).

Definition getEmail (id : string) : M World (option StoredEmail.t) :=
  try_catch
    (email <- redis_call (Cmd.get_email id) ;;
     ret email)
    (fun _ => ret None).

Definition getStats : M World Stats.t :=
  try_catch
    (totalEmails <- redis_call Cmd.llen ;;
     lastReceived <- redis_call Cmd.get_stats ;;
     emails <- redis_call (Cmd.lrange 0 0) ;;
     oldestEmails <- redis_call (Cmd.lrange (-1) (-1)) ;;
     ret {| Stats.totalEmails := totalEmails;
            Stats.newestEmail := StoredEmail.date <$> head emails;
            Stats.oldestEmail := StoredEmail.date <$> head oldestEmails;
            Stats.lastReceived :=
              if Js.truthy lastReceived then lastReceived else None |})
    (fun _ =>
       ret {| Stats.totalEmails := 0;
              Stats.newestEmail := None;
              Stats.oldestEmail := None;
              Stats.lastReceived := None |}).

Definition clear : M World bool :=
  try_catch
    (emails <- redis_call (Cmd.lrange 0 (-1)) ;;
     (if (0 <? length emails)%nat
      then redis_call (Cmd.del_emails (map StoredEmail.id emails))
      else ret tt) ;;
     redis_call Cmd.del_list ;;
     redis_call Cmd.del_stats ;;
     ret true)
    (fun _ => ret false).

End Store.

(** ** The webhook: [fetchNewEmails] and [POST] *)

Record Response := {
  status : nat;
  json_status : string
}.

(** The local array [emails] of [fetchNewEmails] lives next to the world: what
    was pushed before an exception is still there in the [catch] block. *)
Definition Frame : Type := World * list EmailDetails.t.

Section Webhook.

Context {node : Node} {provider : Provider} {backend : Backend}.

(** One request to the provider: it is recorded, and it rejects when the
    provider gives no answer. *)
Definition provider_call {A} (c : ProviderCall) (answer : nat -> option A) : M World A :=
  fun w =>
    let w' ok := {| redis := redis w; now := now w;
                    tick := S (tick w); calls := (c, ok) :: calls w |} in
    match answer (tick w) with
    | Some a => (Ok a, w' true)
    | None => (Throw ProviderError, w' false)
    end.

Definition lift {A} (m : M World A) : M Frame A :=
  fun s => let (o, w') := m (fst s) in (o, (w', snd s)).

(** [emails.push(e)] and reading [emails] *)
Definition push (e : EmailDetails.t) : M Frame unit :=
  fun s => (Ok tt, (fst s, (snd s ++ [e])%list)).
Definition get_emails : M Frame (list EmailDetails.t) :=
  fun s => (Ok (snd s), s).

(** [gmail.users.messages.get({ userId: 'me', id })] followed by
    [extractEmailDetails] and [emails.push]. *)
Definition fetch_and_push (messageId : string) : M Frame unit :=
  message <- lift (provider_call (MessagesGet messageId)
                                 (fun n => messages_get n messageId)) ;;
  push (extractEmailDetails message).

(** The fallback: the most recent unread message of the inbox. *)
Definition fetch_latest : M Frame (list EmailDetails.t) :=
  messageList <- lift (provider_call MessagesList messages_list) ;;
  match Api.messages messageList with
  | Some (m0 :: _) =>
      if Js.truthy (Api.id m0)
      then fetch_and_push (Js.or_empty (Api.id m0))
      else ret tt
  | _ => ret tt
  end ;;
  get_emails.

(** The two nested loops over the history records. *)
Definition fetch_added (added : Api.MessageAdded) : M Frame unit :=
  let messageId := match Api.message added with
                   | Some r => Api.id r
                   | None => None
                   end in
  if negb (Js.truthy messageId) then ret tt     (* continue *)
  else fetch_and_push (Js.or_empty messageId).

Definition fetch_record (record : Api.HistoryRecord) : M Frame unit :=
  match Api.messagesAdded record with
  | Some added => for_each added fetch_added
  | None => ret tt
  end.

(** The [try] block of [fetchNewEmails]. *)
Definition fetch_body (historyId : HistoryId) : M Frame (list EmailDetails.t) :=
  let historyIdStr := String_ historyId in
  if negb (Js.matches_digits historyIdStr) then get_emails
  else
    history <- lift (provider_call (HistoryList historyIdStr)
                                   (fun n => history_list n historyIdStr)) ;;
    match Api.history history with
    | None | Some [] => fetch_latest
    | Some records =>
        for_each records fetch_record ;;
        get_emails
    end.

(** [getGmailClient()] only builds the client object; [emails] starts empty. *)
Definition fetchNewEmails (historyId : HistoryId) : M World (list EmailDetails.t) :=
  fun w =>
    let (o, s) := try_catch (fetch_body historyId) (fun _ => get_emails) (w, []) in
    (o, fst s).

(** [{ ...email, receivedAt, historyId }] *)
Definition stored (email : EmailDetails.t) (receivedAt : string) (historyId : HistoryId)
  : StoredEmail.t :=
  {| StoredEmail.id := EmailDetails.id email;
     StoredEmail.threadId := EmailDetails.threadId email;
     StoredEmail.subject := EmailDetails.subject email;
     StoredEmail.from := EmailDetails.from email;
     StoredEmail.to := EmailDetails.to email;
     StoredEmail.date := EmailDetails.date email;
     StoredEmail.snippet := EmailDetails.snippet email;
     StoredEmail.body := EmailDetails.body email;
     StoredEmail.receivedAt := receivedAt;
     StoredEmail.historyId := historyId |}.

(** The placeholder stored for a test notification. *)
Definition testEmail (notification : GmailNotification) (ms : Z) (iso1 iso2 : string)
  : StoredEmail.t :=
  {| StoredEmail.id := "test-" +:+ pretty ms;
     StoredEmail.threadId := "test";
     StoredEmail.subject := "[Test] Pub/Sub Notification Test";
     StoredEmail.from := "pubsub@test.com";
     StoredEmail.to := emailAddress notification;
     StoredEmail.date := iso1;
     StoredEmail.snippet :=
       "Test notification with history ID: " +:+ String_ (historyId notification);
     StoredEmail.body :=
       Some "This is a test notification from Pub/Sub. Real emails will show full content.";
     StoredEmail.receivedAt := iso2;
     StoredEmail.historyId := historyId notification |}.

(** The inner [try] block of [POST]. *)
Definition process (decodedData : string) : M World unit :=
  notification <- match JSON_parse decodedData with
                  | Malformed => throw SyntaxError
                  | Null => throw TypeError
                  | Obj n => ret n
                  end ;;
  if Js.startsWith (String_ (historyId notification)) "test"
  then
    ms <- Date_now ;;
    iso1 <- new_Date_toISOString ;;
    iso2 <- new_Date_toISOString ;;
    addEmail (testEmail notification ms iso1 iso2) ;;
    ret tt
  else
    newEmails <- fetchNewEmails (historyId notification) ;;
    if (0 <? length newEmails)%nat
    then
      for_each newEmails (fun email =>
        iso <- new_Date_toISOString ;;
        addEmail (stored email iso (historyId notification)) ;;
        ret tt)
    else ret tt.

Definition ok200 : Response := {| status := 200; json_status := "ok" |}.

(** [request] is what [await request.json()] gives. *)
Definition POST (request : Parsed PubSub.Message) : M World Response :=
  try_catch
    (body <- match request with
             | Malformed => throw SyntaxError
             | Null => throw TypeError          (* [body.subscription] *)
             | Obj b => ret b
             end ;;
     let data := match PubSub.message body with
                 | Some m => PubSub.data m
                 | None => None
                 end in
     (if Js.truthy data
      then
        let decodedData := base64_utf8 (Js.or_empty data) in
        try_catch (process decodedData) (fun _ => ret tt)
      else ret tt) ;;
     ret ok200)
    (fun _ => ret ok200).

End Webhook.

(** ** Notions used to state the properties *)

(** A [string | null | undefined] value is present when it holds a non-empty
    string, and absent otherwise. *)
Definition present (o : option string) (d : string) : Prop := o = Some d /\ d <> "".
Definition absent (o : option string) : Prop := o = None \/ o = Some "".

Definition flat_data (m : Gmail.Message) : option string :=
  p ← Gmail.payload m; Gmail.data_of (Gmail.flat p).

Definition parts_of (m : Gmail.Message) : list Gmail.Part :=
  default [] (p ← Gmail.payload m; Gmail.parts p).

Definition plain_text (q : Gmail.Part) : Prop := Gmail.mimeType q = "text/plain".

(** The design's words for the source of the body: (a) the flat body payload;
    (b) if absent, the first part whose declared media type is plain text;
    (c) none if neither is there. The result is the encoded payload chosen. *)
Inductive body_source (m : Gmail.Message) : option string -> Prop :=
  | source_flat d :
      present (flat_data m) d ->
      body_source m (Some d)
  | source_part pre q post d :
      absent (flat_data m) ->
      parts_of m = (pre ++ q :: post)%list ->
      Forall (fun p => ~ plain_text p) pre ->
      plain_text q ->
      present (Gmail.data_of (Gmail.body q)) d ->
      body_source m (Some d)
  | source_part_empty pre q post :
      absent (flat_data m) ->
      parts_of m = (pre ++ q :: post)%list ->
      Forall (fun p => ~ plain_text p) pre ->
      plain_text q ->
      absent (Gmail.data_of (Gmail.body q)) ->
      body_source m None
  | source_none :
      absent (flat_data m) ->
      Forall (fun p => ~ plain_text p) (parts_of m) ->
      body_source m None.

(** The store after a series of inserts, each one after a delay (ms). *)
Section Scenarios.

Context {node : Node} {backend : Backend}.

Fixpoint insert_all (sched : list (N * StoredEmail.t)) (w : World) : World :=
  match sched with
  | [] => w
  | (dt, e) :: rest => insert_all rest (snd (addEmail e (elapse dt w)))
  end.

Fixpoint delays (sched : list (N * StoredEmail.t)) : N :=
  match sched with
  | [] => 0%N
  | (dt, _) :: rest => (dt + delays rest)%N
  end.

(** The instant at which insert number [i] (from 0) of [sched] runs. *)
Definition inserted_at (w : World) (sched : list (N * StoredEmail.t)) (i : nat) : Z :=
  now w + Z.of_N (delays (firstn (S i) sched)).

End Scenarios.

(** The backend answers every command. *)
Definition healthy {backend : Backend} : Prop := forall n, redis_fault n = false.

(** The time to live of a by-id entry, in ms. *)
Definition ttl_ms : Z := thirty_days * 1000.

(** The messages the provider handed over, read off a chronological log of
    requests of which the first was remote call number [t]. *)
Section Fetched.

Context {node : Node} {provider : Provider}.

Definition answer_of (t : nat) (entry : ProviderCall * bool) : option Gmail.Message :=
  match entry with
  | (MessagesGet id, true) => messages_get t id
  | _ => None
  end.

Fixpoint fetched (t : nat) (log : list (ProviderCall * bool)) : list Gmail.Message :=
  match log with
  | [] => []
  | entry :: rest => (option_list (answer_of t entry) ++ fetched (S t) rest)%list
  end.

(** From frame [s] to frame [s']: some requests [log] were sent, the backend
    and the clock were left alone, and [emails] grew by the details of the
    messages handed over. *)
Definition tracks (s s' : Frame) : Prop :=
  exists log,
    calls (fst s') = (rev log ++ calls (fst s))%list
    /\ tick (fst s') = (tick (fst s) + length log)%nat
    /\ redis (fst s') = redis (fst s)
    /\ now (fst s') = now (fst s)
    /\ snd s' = (snd s ++ map extractEmailDetails (fetched (tick (fst s)) log))%list.

(** A computation on frames that only talks to the provider. *)
Definition Tracks {A} (m : M Frame A) : Prop := forall s, tracks s (snd (m s)).

(** A computation on frames that returns the array [emails]. *)
Definition Returns_emails (m : M Frame (list EmailDetails.t)) : Prop :=
  forall s, match m s with
            | (Ok es, s') => es = snd s'
            | (Throw _, _) => True
            end.

End Fetched.

(** [s] is [p] followed by at least one more character. *)
Definition strict_prefix (p s : string) : Prop :=
  exists rest, rest <> "" /\ s = p +:+ rest.

(** ** A sample runtime and sample data *)

Module Sample.

(** Payloads are taken as text already, and the decoded text of a
    notification is taken as its cursor. *)
Definition node : Node :=
  {| base64_utf8 := fun s => s;
     JSON_parse := fun s =>
       if String.eqb s "" then Malformed
       else Obj {| emailAddress := "me@example.com"; historyId := HStr s |};
     toISOString := fun ms => pretty ms |}.

Definition backend : Backend := {| redis_fault := fun _ => false |}.

Definition message (i : string) (hs : list Gmail.Header) (flat : option string)
           (ps : option (list Gmail.Part)) : Gmail.Message :=
  {| Gmail.id := Some i;
     Gmail.threadId := Some "thread";
     Gmail.payload := Some {| Gmail.headers := Some hs;
                              Gmail.flat := Some {| Gmail.data := flat |};
                              Gmail.parts := ps |};
     Gmail.snippet := Some "snippet" |}.

Definition part (mime d : string) : Gmail.Part :=
  {| Gmail.mimeType := mime; Gmail.body := Some {| Gmail.data := Some d |} |}.

(** No flat body, one part of the given media type, one header [SUBJECT]. *)
Definition shouting (mime d v : string) : Gmail.Message :=
  message "m1" [{| Gmail.name := "SUBJECT"; Gmail.value := v |}] None (Some [part mime d]).

(** An HTML part followed by a plain-text part. *)
Definition multipart (d : string) : Gmail.Message :=
  message "m1" [] None (Some [part "text/html" "PGI+aGk8L2I+"; part "text/plain" d]).

Fixpoint xs (n : nat) : string :=
  match n with
  | O => ""
  | S n' => String "x" (xs n')
  end.

(** The provider knows two new messages and hands over only the first. *)
Definition flaky : Provider :=
  {| history_list := fun _ _ =>
       Some {| Api.history := Some [
         {| Api.messagesAdded := Some [
              {| Api.message := Some {| Api.id := Some "m1" |} |};
              {| Api.message := Some {| Api.id := Some "m2" |} |} ] |} ] |};
     messages_list := fun _ => None;
     messages_get := fun _ i =>
       if String.eqb i "m1" then Some (message "m1" [] (Some "aGk=") None) else None |}.

Definition empty : World :=
  {| redis := {| emails := []; byId := ∅; lastReceived := None |};
     now := 0; tick := 0; calls := [] |}.

Definition email (i : nat) : StoredEmail.t :=
  {| StoredEmail.id := "m" +:+ pretty i;
     StoredEmail.threadId := "thread";
     StoredEmail.subject := "subject";
     StoredEmail.from := "a@example.com";
     StoredEmail.to := "b@example.com";
     StoredEmail.date := "date";
     StoredEmail.snippet := "snippet";
     StoredEmail.body := None;
     StoredEmail.receivedAt := "received";
     StoredEmail.historyId := HNum "7" |}.

(** [n] inserts, one a second, of the records [email 0 .. email (n-1)]. *)
Definition sched (n : nat) : list (N * StoredEmail.t) :=
  map (fun i => (1000%N, email i)) (seq 0 n).

Definition request (d : string) : Parsed PubSub.Message :=
  Obj {| PubSub.message := Some {| PubSub.data := Some d;
                                   PubSub.messageId := "1";
                                   PubSub.publishTime := "2024-01-01T00:00:00Z" |};
         PubSub.subscription := "projects/p/subscriptions/s" |}.

End Sample.

(** * The rest of the repository *)

(** ** lib/email-store.ts: the in-memory store *)

Module MemoryStore.

(** [l.slice(0, end)] for an integer [end]: a negative [end] counts from the
    end of the array, and both ends are clamped to it. *)
Definition slice0 {A} (l : list A) (end_ : Z) : list A :=
  let len := Z.of_nat (length l) in
  let final := if end_ <? 0 then Z.max (len + end_) 0 else Z.min end_ len in
  firstn (Z.to_nat final) l.

Definition maxEmails : Z := 100.

(** The state is the array [this.emails]. *)
Definition addEmail (email : StoredEmail.t) (emails : list StoredEmail.t)
  : list StoredEmail.t :=
  let emails := email :: emails in                        (* unshift *)
  if maxEmails <? Z.of_nat (length emails) then slice0 emails maxEmails else emails.

Definition getEmails (limit : Z) (emails : list StoredEmail.t) : list StoredEmail.t :=
  slice0 emails limit.

Definition getEmail (id : string) (emails : list StoredEmail.t) : option StoredEmail.t :=
  find (fun e => String.eqb (StoredEmail.id e) id) emails.

Definition getStats (emails : list StoredEmail.t) : Stats.t :=
  {| Stats.totalEmails := Z.of_nat (length emails);
     Stats.oldestEmail := StoredEmail.date <$> last emails;
     Stats.newestEmail := StoredEmail.date <$> head emails;
     Stats.lastReceived := StoredEmail.receivedAt <$> head emails |}.

Definition clear (emails : list StoredEmail.t) : list StoredEmail.t := [].

(** A series of [addEmail], first to last. *)
Definition add_all (es : list StoredEmail.t) (emails : list StoredEmail.t)
  : list StoredEmail.t :=
  foldl (fun acc e => addEmail e acc) emails es.

End MemoryStore.

(** ** lib/email-store-kv.ts: [testConnection] *)

(** The key [test:connection] is a fourth component of the backend, next to
    the three that [Redis] holds: the value and the instant at which it expires. *)
Definition Probed : Type := World * option (string * Z).

(** [process.env] *)
Class Env := {
  KV_REST_API_URL : option string;
  KV_REST_API_TOKEN : option string
}.

Section Diagnostics.

Context {node : Node} {backend : Backend} {env : Env}.

(** One command on the key [test:connection]. *)
Definition probe_call {A} (cmd : Z -> option (string * Z) -> A * option (string * Z))
  : M Probed A :=
  fun s =>
    let w := fst s in
    let w' := {| redis := redis w; now := now w; tick := S (tick w); calls := calls w |} in
    if redis_fault (tick w) then (Throw RedisError, (w', snd s))
    else let (a, p) := cmd (now w) (snd s) in (Ok a, (w', p)).

(** A store method run next to the key [test:connection]. *)
Definition on_world {A} (m : M World A) : M Probed A :=
  fun s => let (o, w') := m (fst s) in (o, (w', snd s)).

Definition testConnection : M Probed bool :=
  try_catch
    (probe_call (fun t _ => (tt, Some ("connected", t + 10 * 1000))) ;;
     result <- probe_call (fun t p => (p ≫= Cmd.live t, p)) ;;
     ret (match result with
          | Some r => String.eqb r "connected"
          | None => false
          end))
    (fun _ => ret false).

End Diagnostics.

(** ** app/api/test-redis/route.ts *)

Module TestRedis.

Variant Response :=
  | Report (connected : bool) (url : string) (urlPrefix : option string)
           (stats : Stats.t) (recentEmails : nat) (emailsList : list StoredEmail.t)
           (timestamp : string)                                  (* success: true *)
  | Failure (error : Exn) (hasUrl hasToken : bool).              (* status 500 *)

Definition status (r : Response) : nat :=
  match r with
  | Report _ _ _ _ _ _ _ => 200
  | Failure _ _ _ => 500
  end.

Section Handler.

Context {node : Node} {backend : Backend} {env : Env}.

Definition GET : M Probed Response :=
  try_catch
    (connected <- testConnection ;;
     stats <- on_world getStats ;;
     emails <- on_world (getEmails 5) ;;
     iso <- on_world new_Date_toISOString ;;
     ret (Report connected
                 (if Js.truthy KV_REST_API_URL then "configured" else "missing")
                 (Js.substring0 30 <$> KV_REST_API_URL)
                 stats (length emails) emails iso))
    (fun error =>
       ret (Failure error (Js.truthy KV_REST_API_URL) (Js.truthy KV_REST_API_TOKEN))).

End Handler.

End TestRedis.

(** ** app/api/cleanup/route.ts *)

Module Cleanup.

Variant Response :=
  | Report (totalEmails testEmails : nat) (realEmails : Z) (message timestamp : string)
  | Cleared (message timestamp : string)
  | Failure (error : Exn).                                       (* status 500 *)

Definition status (r : Response) : nat :=
  match r with
  | Failure _ => 500
  | _ => 200
  end.

(** The filter of [POST]. *)
Definition is_test (email : StoredEmail.t) : bool :=
  Js.startsWith (StoredEmail.id email) "test-"
  || Js.includes (StoredEmail.from email) "test@"
  || Js.includes (StoredEmail.subject email) "[Test]".

Section Handlers.

Context {node : Node} {backend : Backend}.

Definition POST : M World Response :=
  try_catch
    (emails <- getEmails 100 ;;
     let testEmails := filter (fun email => is_test email = true) emails in
     iso <- new_Date_toISOString ;;
     ret (Report (length emails) (length testEmails)
                 (Z.of_nat (length emails) - Z.of_nat (length testEmails))
                 ("Found " +:+ pretty (length testEmails) +:+ " test emails out of "
                           +:+ pretty (length emails) +:+ " total")
                 iso))
    (fun error => ret (Failure error)).

Definition DELETE : M World Response :=
  try_catch
    (clear ;;
     iso <- new_Date_toISOString ;;
     ret (Cleared "All emails cleared from Redis" iso))
    (fun error => ret (Failure error)).

End Handlers.

End Cleanup.

(** ** app/api/emails/route.ts: [DELETE] *)

Module EmailsRoute.

Variant Response :=
  | Answer (success : bool) (message timestamp : string)
  | Failure (error : Exn) (timestamp : string).                  (* status 500 *)

Definition status (r : Response) : nat :=
  match r with
  | Answer _ _ _ => 200
  | Failure _ _ => 500
  end.

Section Handlers.

Context {node : Node} {backend : Backend}.

Definition DELETE : M World Response :=
  try_catch
    (success <- clear ;;
     iso <- new_Date_toISOString ;;
     ret (Answer success
                 (if success then "Email store cleared" else "Failed to clear store")
                 iso))
    (fun error =>
       iso <- new_Date_toISOString ;;
       ret (Failure error iso)).

End Handlers.

End EmailsRoute.

(** ** app/dashboard/page.tsx: the search filter and the relative dates *)

(** What the browser does with dates: [new Date(s).getTime()], where [None]
    is [NaN], and [date.toLocaleDateString('en-US', { month: 'short', day:
    'numeric' })]. *)
Class Browser := {
  Date_getTime : string -> option Z;
  toLocaleDateString : option Z -> string
}.

Module Dashboard.

(** [email.body && email.body.toLowerCase().includes(query)] *)
Definition body_matches (body : option string) (query : string) : bool :=
  match body with
  | Some b => if String.eqb b "" then false else Js.includes (Js.toLowerCase b) query
  | None => false
  end.

Definition matches (query : string) (email : StoredEmail.t) : bool :=
  Js.includes (Js.toLowerCase (StoredEmail.subject email)) query
  || Js.includes (Js.toLowerCase (StoredEmail.from email)) query
  || Js.includes (Js.toLowerCase (StoredEmail.snippet email)) query
  || body_matches (StoredEmail.body email) query.

Definition filteredEmails (emails : list StoredEmail.t) (searchQuery : string)
  : list StoredEmail.t :=
  if String.eqb searchQuery "" then emails
  else
    let query := Js.toLowerCase searchQuery in
    filter (fun email => matches query email = true) emails.

(** [formatDate(dateString)], read at the instant [now_ms]. A comparison with
    [NaN] is false, so that an unreadable date falls through to the last line. *)
Definition formatDate `{Browser} (now_ms : Z) (dateString : string) : string :=
  match Date_getTime dateString with
  | None => toLocaleDateString None
  | Some t =>
      let diffMs := now_ms - t in
      let diffMins := diffMs / 60000 in
      let diffHours := diffMins / 60 in
      let diffDays := diffHours / 24 in
      if diffMins <? 1 then "now"
      else if diffMins <? 60 then pretty diffMins +:+ "m"
      else if diffHours <? 24 then pretty diffHours +:+ "h"
      else if diffDays <? 7 then pretty diffDays +:+ "d"
      else toLocaleDateString (Some t)
  end.

End Dashboard.

(** ** More notions used to state the properties *)

(** The world after the requests [log] (first to last) went to the provider. *)
Definition advance (w : World) (log : list (ProviderCall * bool)) : World :=
  {| redis := redis w; now := now w;
     tick := (length log + tick w)%nat;
     calls := (rev log ++ calls w)%list |}.

(** The requests that fetch the messages [ids], all answered. *)
Definition gets (ids : list string) : list (ProviderCall * bool) :=
  map (fun i => (MessagesGet i, true)) ids.



(** Every request of the log was answered. *)
Definition all_answered (log : list (ProviderCall * bool)) : Prop :=
  Forall (fun entry => snd entry = true) log.

(** No request follows one that failed: the requests were all answered, or
    all but the last one. *)
Definition stops_at_failure (log : list (ProviderCall * bool)) : Prop :=
  all_answered log
  \/ exists before c, log = (before ++ [(c, false)])%list /\ all_answered before.

Definition is_ok {A} (o : Outcome A) : bool :=
  match o with
  | Ok _ => true
  | Throw _ => false
  end.

Section Runs.

Context {node : Node} {provider : Provider}.

(** [tracks], with the log told apart by how the run ended: a run that
    returned had all its requests answered, a run that threw had all but its
    last request answered. *)
Definition runs (ok : bool) (s s' : Frame) : Prop :=
  exists log,
    calls (fst s') = (rev log ++ calls (fst s))%list
    /\ tick (fst s') = (tick (fst s) + length log)%nat
    /\ redis (fst s') = redis (fst s)
    /\ now (fst s') = now (fst s)
    /\ snd s' = (snd s ++ map extractEmailDetails (fetched (tick (fst s)) log))%list
    /\ if ok then all_answered log
       else exists before c, log = (before ++ [(c, false)])%list /\ all_answered before.

Definition Runs {A} (m : M Frame A) : Prop :=
  forall s, runs (is_ok (fst (m s))) s (snd (m s)).

End Runs.

(** The backend fails every command. *)
Definition outage {backend : Backend} : Prop := forall n, redis_fault n = true.

(** More sample data. *)
Module Sample2.

Definition down : Backend := {| redis_fault := fun _ => true |}.

(** The backend fails the command issued as remote call number [n] only. *)
Definition fails_at (n : nat) : Backend := {| redis_fault := fun k => Nat.eqb k n |}.

Definition env : Env :=
  {| KV_REST_API_URL := Some "https://example.upstash.io"; KV_REST_API_TOKEN := None |}.

Definition browser : Browser :=
  {| Date_getTime := fun s => if String.eqb s "" then None else Some 0;
     toLocaleDateString := fun t => match t with Some _ => "Jan 1" | None => "Invalid Date" end |}.

(** Empty history, one unread message in the inbox. *)
Definition quiet : Provider :=
  {| history_list := fun _ _ => Some {| Api.history := None |};
     messages_list := fun _ =>
       Some {| Api.messages := Some [ {| Api.id := Some "m9" |} ] |};
     messages_get := fun _ i => Some (Sample.message i [] (Some "aGk=") None) |}.

(** A record under the id [dup]. *)
Definition dup (subject : string) : StoredEmail.t :=
  {| StoredEmail.id := "dup";
     StoredEmail.threadId := "thread";
     StoredEmail.subject := subject;
     StoredEmail.from := "a@example.com";
     StoredEmail.to := "b@example.com";
     StoredEmail.date := "date";
     StoredEmail.snippet := "snippet";
     StoredEmail.body := None;
     StoredEmail.receivedAt := "received";
     StoredEmail.historyId := HNum "7" |}.

(** 101 inserts, one a second: the first and the last carry the id [dup]. *)
Definition reused : list (N * StoredEmail.t) :=
  ((1000%N, dup "old") :: map (fun i => (1000%N, Sample.email i)) (seq 1 99)
     ++ [(1000%N, dup "new")])%list.

(** Empty history, empty inbox. *)
Definition silent : Provider :=
  {| history_list := fun _ _ => Some {| Api.history := Some [] |};
     messages_list := fun _ => Some {| Api.messages := None |};
     messages_get := fun _ _ => None |}.


End Sample2.

(** * Properties *)

(** ** Strings and lists *)

Section StringFacts.

Lemma truthy_present o d : present o d -> Js.truthy o = true /\ Js.or_empty o = d.
Proof.
  intros [-> Hd]. simpl. split; [|reflexivity].
  apply negb_true_iff, String.eqb_neq. exact Hd.
Qed.

Lemma truthy_absent o : absent o -> Js.truthy o = false.
Proof. intros [-> | ->]; reflexivity. Qed.

Lemma present_or_absent o : (exists d, present o d) \/ absent o.
Proof.
  destruct o as [s|]; [|right; left; reflexivity].
  destruct (String.eqb_spec s "") as [-> | Hne].
  - right; right; reflexivity.
  - left; exists s; split; [reflexivity | exact Hne].
Qed.

Lemma length_append s1 s2 :
  String.length (s1 +:+ s2) = (String.length s1 + String.length s2)%nat.
Proof.
  induction s1 as [|c s1 IH]; [reflexivity|].
  change (S (String.length (s1 +:+ s2)) = S (String.length s1 + String.length s2)).
  f_equal. exact IH.
Qed.

Lemma substring0_split n s :
  exists rest, s = Js.substring0 n s +:+ rest
               /\ String.length (Js.substring0 n s) = Nat.min n (String.length s).
Proof.
  unfold Js.substring0. revert s.
  induction n as [|n IH]; intros s.
  - exists s. destruct s; simpl; split; reflexivity.
  - destruct s as [|c s]; simpl.
    + exists "". split; reflexivity.
    + destruct (IH s) as (rest & Hs & Hl). exists rest. split.
      * rewrite Hs at 1. reflexivity.
      * f_equal. exact Hl.
Qed.

Lemma find_first {A} (f : A -> bool) pre q post :
  Forall (fun p => f p = false) pre -> f q = true ->
  find f (pre ++ q :: post) = Some q.
Proof.
  induction 1 as [|p pre Hp _ IH]; intros Hq; simpl.
  - rewrite Hq. reflexivity.
  - rewrite Hp. apply IH, Hq.
Qed.

Lemma find_none {A} (f : A -> bool) l :
  Forall (fun p => f p = false) l -> find f l = None.
Proof.
  induction 1 as [|p l Hp _ IH]; simpl; [reflexivity|].
  rewrite Hp. exact IH.
Qed.


(** [matches_digits] is the test [/^\d+$/]: at least one character, and
    nothing but the characters 0 to 9. *)
Lemma matches_digits_spec (s : string) :
  Js.matches_digits s = true
  <-> s <> "" /\ Forall (fun c => (48 <= nat_of_ascii c <= 57)%nat) (list_ascii_of_string s).
Proof.
  assert (Hall : forall s', Js.all_digits s' = true
            <-> Forall (fun c => (48 <= nat_of_ascii c <= 57)%nat)
                       (list_ascii_of_string s')).
  { induction s' as [|c s' IH]; simpl.
    - split; [constructor | reflexivity].
    - rewrite andb_true_iff, IH. unfold Js.is_digit.
      rewrite andb_true_iff, !Nat.leb_le. split.
      + intros [[? ?] ?]. constructor; [lia | assumption].
      + intros Hc. inversion Hc; subst. repeat split; [lia | lia | assumption]. }
  destruct s as [|c s].
  - simpl. split; [discriminate | intros [Hne _]; congruence].
  - unfold Js.matches_digits. rewrite Hall. split.
    + intros Hd. split; [discriminate | exact Hd].
    + intros [_ Hd]. exact Hd.
Qed.

End StringFacts.

Section ExtractFacts.
Context {node : Node}.

Lemma plain_text_eqb q :
  String.eqb (Gmail.mimeType q) "text/plain" = true <-> plain_text q.
Proof. apply String.eqb_eq. Qed.

Lemma not_plain_text_eqb q :
  ~ plain_text q -> String.eqb (Gmail.mimeType q) "text/plain" = false.
Proof. intros Hq. apply String.eqb_neq. exact Hq. Qed.

Lemma extract_body_flat_absent (m : Gmail.Message) :
  absent (flat_data m) ->
  extract_body (Gmail.payload m) =
    let part_data :=
      q ← find (fun q => String.eqb (Gmail.mimeType q) "text/plain") (parts_of m);
      Gmail.data_of (Gmail.body q) in
    if Js.truthy part_data then base64_utf8 (Js.or_empty part_data) else "".
Proof.
  intros Ha. apply truthy_absent in Ha.
  unfold extract_body, flat_data, parts_of in *.
  destruct (Gmail.payload m) as [p|]; simpl in *; [|reflexivity].
  rewrite Ha. destruct (Gmail.parts p) as [ps|]; reflexivity.
Qed.

Lemma extract_body_source (m : Gmail.Message) (r : option string) :
  body_source m r ->
  extract_body (Gmail.payload m) =
    match r with Some d => base64_utf8 d | None => "" end.
Proof.
  destruct 1 as [d Hd | pre q post d Ha Hps Hpre Hq Hd
                 | pre q post Ha Hps Hpre Hq Hd | Ha Hall].
  - apply truthy_present in Hd as [Ht Hv].
    unfold extract_body, flat_data in *.
    destruct (Gmail.payload m) as [p|]; simpl in *; [|discriminate].
    rewrite Ht, Hv. reflexivity.
  - rewrite (extract_body_flat_absent _ Ha), Hps.
    rewrite find_first;
      [| eapply Forall_impl; [exact Hpre | apply not_plain_text_eqb]
       | apply plain_text_eqb, Hq].
    apply truthy_present in Hd as [Ht Hv]. simpl. rewrite Ht, Hv. reflexivity.
  - rewrite (extract_body_flat_absent _ Ha), Hps.
    rewrite find_first;
      [| eapply Forall_impl; [exact Hpre | apply not_plain_text_eqb]
       | apply plain_text_eqb, Hq].
    simpl. rewrite (truthy_absent _ Hd). reflexivity.
  - rewrite (extract_body_flat_absent _ Ha).
    rewrite find_none;
      [| eapply Forall_impl; [exact Hall | apply not_plain_text_eqb]].
    reflexivity.
Qed.

(** Every message has a body source, and only one. *)
Lemma body_source_total (m : Gmail.Message) : exists r, body_source m r.
Proof.
  destruct (present_or_absent (flat_data m)) as [[d Hd] | Ha].
  { exists (Some d). apply source_flat, Hd. }
  assert (Hsplit : forall l : list Gmail.Part,
             Forall (fun p => ~ plain_text p) l \/
             exists pre q post, l = (pre ++ q :: post)%list
                                /\ Forall (fun p => ~ plain_text p) pre
                                /\ plain_text q).
  { induction l as [|p l IH]; [left; constructor|].
    destruct (String.eqb_spec (Gmail.mimeType p) "text/plain") as [Hp | Hp].
    - right. exists [], p, l. repeat split; [constructor | exact Hp].
    - destruct IH as [IH | (pre & q & post & -> & Hpre & Hq)].
      + left. constructor; assumption.
      + right. exists (p :: pre), q, post. repeat split; [|exact Hq].
        constructor; assumption. }
  destruct (Hsplit (parts_of m)) as [Hall | (pre & q & post & Hps & Hpre & Hq)].
  { exists None. apply source_none; assumption. }
  destruct (present_or_absent (Gmail.data_of (Gmail.body q))) as [[d Hd] | Hd].
  - exists (Some d). eapply source_part; eassumption.
  - exists None. eapply source_part_empty; eassumption.
Qed.

(** C6. The body of the extracted record comes from (a) the flat body payload,
    decoded; (b) if that is absent, the first part whose media type is plain
    text, decoded the same way; (c) if neither is there, the body is the empty
    string. What was chosen is cut to its first 1000 characters. *)
Theorem extract_body_order (m : Gmail.Message) (r : option string) :
  body_source m r ->
  EmailDetails.body (extractEmailDetails m) =
    Some (Js.substring0 1000
            match r with Some d => base64_utf8 d | None => "" end).
Proof.
  intros Hr. unfold extractEmailDetails. simpl.
  rewrite (extract_body_source _ _ Hr). reflexivity.
Qed.

Lemma substring0_strict n s :
  (n < String.length s)%nat ->
  String.length (Js.substring0 n s) = n /\ strict_prefix (Js.substring0 n s) s.
Proof.
  intros Hn. destruct (substring0_split n s) as (rest & Hs & Hl).
  split; [lia|]. exists rest. split; [|exact Hs].
  intros ->. apply (f_equal String.length) in Hs.
  rewrite length_append in Hs. simpl in Hs. lia.
Qed.

(** C7. Whichever source the body came from, when it decodes to 5000
    characters the body of the stored record has exactly 1000 characters and is
    a strict prefix of the decoded text. *)
Theorem body_capped_at_1000 (m : Gmail.Message) (d receivedAt : string) (h : HistoryId) :
  body_source m (Some d) ->
  String.length (base64_utf8 d) = 5000%nat ->
  exists b,
    StoredEmail.body (stored (extractEmailDetails m) receivedAt h) = Some b
    /\ String.length b = 1000%nat
    /\ strict_prefix b (base64_utf8 d).
Proof.
  intros Hsrc Hlen. exists (Js.substring0 1000 (base64_utf8 d)).
  split.
  - simpl. rewrite (extract_body_source _ _ Hsrc). reflexivity.
  - apply substring0_strict. rewrite Hlen. lia.
Qed.

(** The header lookup ignores the case of the name it is given and of the
    names it meets. *)
Lemma getHeader_caseless (hs : list Gmail.Header) (name1 name2 : string) :
  Js.toLowerCase name1 = Js.toLowerCase name2 ->
  getHeader hs name1 = getHeader hs name2.
Proof. intros Heq. unfold getHeader. rewrite Heq. reflexivity. Qed.

(** C10. The media type of a part is compared with exactly [text/plain], case
    and all: without a flat body, a lone part of any other media type, such as
    [Text/Plain] or [text/plain] with a parameter, gives an empty body, where
    the same part declared [text/plain] gives its text. Header names are
    compared without case and nothing else: among several headers the lookup
    of [Subject] passes over those of another name and answers the first whose
    name is [subject] in any case, such as [SUBJECT]. *)
Theorem mime_exact_header_caseless :
  (forall mime d hs,
      mime <> "text/plain" ->
      EmailDetails.body
        (extractEmailDetails (Sample.message "m1" hs None (Some [Sample.part mime d])))
      = Some "")
  /\ (forall d v,
      EmailDetails.body (extractEmailDetails (Sample.shouting "Text/Plain" d v)) = Some "")
  /\ (forall d v,
      EmailDetails.body
        (extractEmailDetails (Sample.shouting "text/plain; charset=utf-8" d v)) = Some "")
  /\ (forall v,
      EmailDetails.body (extractEmailDetails (Sample.shouting "text/plain" "aGk=" v))
      = Some (Js.substring0 1000 (base64_utf8 "aGk=")))
  /\ (forall mime d v,
      EmailDetails.subject (extractEmailDetails (Sample.shouting mime d v)) = v)
  /\ (forall pre post nm v flat ps,
      Forall (fun x => Js.toLowerCase (Gmail.name x) <> "subject") pre ->
      Js.toLowerCase nm = "subject" ->
      EmailDetails.subject
        (extractEmailDetails
           (Sample.message "m1"
              (pre ++ {| Gmail.name := nm; Gmail.value := v |} :: post) flat ps))
      = v)
  /\ (forall d v,
      let m := Sample.message "m1"
                 [ {| Gmail.name := "From"; Gmail.value := "a@example.com" |};
                   {| Gmail.name := "SUBJECT"; Gmail.value := v |};
                   {| Gmail.name := "To"; Gmail.value := "b@example.com" |};
                   {| Gmail.name := "subject"; Gmail.value := "second" |} ]
                 None (Some [Sample.part "Text/Plain" d]) in
      EmailDetails.body (extractEmailDetails m) = Some ""
      /\ EmailDetails.subject (extractEmailDetails m) = v
      /\ EmailDetails.from (extractEmailDetails m) = "a@example.com"
      /\ EmailDetails.to (extractEmailDetails m) = "b@example.com"
      /\ EmailDetails.date (extractEmailDetails m) = "").
Proof.
  assert (Hnone : forall mime d hs,
             mime <> "text/plain" ->
             EmailDetails.body
               (extractEmailDetails
                  (Sample.message "m1" hs None (Some [Sample.part mime d])))
             = Some "").
  { intros mime d hs Hmime. unfold extractEmailDetails. cbn [EmailDetails.body].
    rewrite (extract_body_source _ None); [reflexivity|].
    apply source_none; [left; reflexivity|].
    constructor; [exact Hmime | constructor]. }
  split; [exact Hnone|].
  split; [intros; apply Hnone; discriminate|].
  split; [intros; apply Hnone; discriminate|].
  split; [reflexivity|].
  split; [reflexivity|].
  split.
  - intros pre post nm v flat ps Hpre Hnm.
    unfold extractEmailDetails. cbn [EmailDetails.subject Sample.message Gmail.payload
                                       Gmail.headers].
    unfold getHeader. rewrite find_first; [reflexivity| |].
    + eapply Forall_impl; [exact Hpre|]. intros x Hx. apply String.eqb_neq. exact Hx.
    + cbn [Gmail.name]. rewrite Hnm. reflexivity.
  - intros d v m. split; [apply Hnone; discriminate|]. repeat split.
Qed.

End ExtractFacts.

Lemma extract_body_order_witness :
  EmailDetails.body (extractEmailDetails (node := Sample.node) (Sample.multipart "aGVsbG8="))
  = Some "aGVsbG8=".
Proof.
  apply (extract_body_order (node := Sample.node)
           (Sample.multipart "aGVsbG8=") (Some "aGVsbG8=")).
  apply (source_part _ [Sample.part "text/html" "PGI+aGk8L2I+"]
           (Sample.part "text/plain" "aGVsbG8=") [] "aGVsbG8=").
  - left. reflexivity.
  - reflexivity.
  - constructor; [discriminate | constructor].
  - reflexivity.
  - split; [reflexivity | discriminate].
Defined.

Lemma body_capped_at_1000_witness :
  exists b,
    StoredEmail.body
      (stored (extractEmailDetails (node := Sample.node)
                 (Sample.multipart (Sample.xs 5000))) "received" (HNum "7")) = Some b
    /\ String.length b = 1000%nat
    /\ strict_prefix b (Sample.xs 5000).
Proof.
  apply (body_capped_at_1000 (node := Sample.node)
           (Sample.multipart (Sample.xs 5000)) (Sample.xs 5000) "received" (HNum "7")).
  - apply (source_part _ [Sample.part "text/html" "PGI+aGk8L2I+"]
             (Sample.part "text/plain" (Sample.xs 5000)) [] (Sample.xs 5000)).
    + left. reflexivity.
    + reflexivity.
    + constructor; [discriminate | constructor].
    + reflexivity.
    + split; [reflexivity | discriminate].
  - vm_compute. reflexivity.
Defined.

(** ** The bounded store *)

Section KeyFacts.
(** The three kinds of keys never collide. *)
Lemma keys_distinct id :
  email_key id <> emailsKey /\ email_key id <> statsKey /\ emailsKey <> statsKey.
Proof. repeat split; discriminate. Qed.

Lemma email_key_inj id1 id2 : email_key id1 = email_key id2 -> id1 = id2.
Proof. unfold email_key. intros Heq. injection Heq. trivial. Qed.
End KeyFacts.

Section SliceFacts.
Context {A : Type}.

Lemma slice_from_0 (l : list A) (stop : Z) :
  0 <= stop -> Cmd.slice l 0 stop = firstn (Z.to_nat (stop + 1)) l.
Proof.
  intros Hstop. unfold Cmd.slice, Cmd.range.
  set (len := Z.of_nat (length l)).
  assert (Hlen : len = Z.of_nat (length l)) by reflexivity.
  simpl.
  destruct (Z.ltb_spec stop 0) as [?|_]; [lia|].
  destruct (Z.ltb_spec stop 0) as [?|_]; [lia|]. simpl.
  destruct (Z.leb_spec len 0) as [H0|H0]; simpl.
  - assert (Hl : length l = 0%nat) by lia.
    apply length_zero_iff_nil in Hl as ->. now rewrite firstn_nil.
  - rewrite skipn_O. destruct (Z.leb_spec len stop) as [H1|H1].
    + rewrite !firstn_all2; [reflexivity | lia | lia].
    + f_equal. lia.
Qed.

Lemma slice_nil (start stop : Z) : Cmd.slice (@nil A) start stop = [].
Proof.
  unfold Cmd.slice. destruct (Cmd.range _ start stop) as [[a b]|]; [|reflexivity].
  rewrite skipn_nil. apply firstn_nil.
Qed.

Lemma slice_all (l : list A) : Cmd.slice l 0 (-1) = l.
Proof.
  unfold Cmd.slice, Cmd.range.
  set (len := Z.of_nat (length l)).
  assert (Hlen : len = Z.of_nat (length l)) by reflexivity.
  simpl.
  destruct (Z.ltb_spec (len + -1) 0) as [H0|H0]; simpl.
  - assert (Hl : length l = 0%nat) by lia.
    apply length_zero_iff_nil in Hl as ->. reflexivity.
  - destruct (Z.leb_spec len 0) as [H1|H1]; simpl; [lia|].
    destruct (Z.leb_spec len (len + -1)) as [H2|H2]; [lia|].
    rewrite skipn_O. apply firstn_all2. lia.
Qed.

Lemma firstn_app_firstn (n : nat) (a b : list A) :
  firstn n (a ++ firstn n b) = firstn n (a ++ b).
Proof.
  rewrite !firstn_app. f_equal.
  rewrite firstn_firstn. f_equal. lia.
Qed.
End SliceFacts.

Section StoreFacts.
Context {node : Node} {backend : Backend}.
Hypothesis up : healthy.

Lemma redis_call_ok {A} (cmd : Z -> Redis -> A * Redis) (w : World) :
  redis_call cmd w =
    (Ok (fst (cmd (now w) (redis w))),
     {| redis := snd (cmd (now w) (redis w)); now := now w;
        tick := S (tick w); calls := calls w |}).
Proof.
  unfold redis_call. rewrite up. destruct (cmd (now w) (redis w)); reflexivity.
Qed.

Lemma addEmail_ok (e : StoredEmail.t) (w : World) :
  exists w',
    addEmail e w = (Ok true, w')
    /\ emails (redis w') = firstn 100 (e :: emails (redis w))
    /\ byId (redis w') = <[StoredEmail.id e := (e, now w + ttl_ms)]> (byId (redis w))
    /\ lastReceived (redis w') = Some (toISOString (now w), now w + ttl_ms)
    /\ now w' = now w
    /\ calls w' = calls w.
Proof.
  unfold addEmail, updateStats, try_catch, bind, new_Date_toISOString, ret.
  rewrite !redis_call_ok. simpl.
  eexists. split; [reflexivity|]. simpl.
  repeat split. apply (slice_from_0 (e :: emails (redis w)) 99). lia.
Qed.

Lemma getEmails_ok (limit : Z) (w : World) :
  fst (getEmails limit w) = Ok (Cmd.slice (emails (redis w)) 0 (limit - 1)).
Proof.
  unfold getEmails, try_catch, bind, ret. rewrite redis_call_ok. reflexivity.
Qed.

(** For a positive limit, [getEmails] is the first [min limit length] entries. *)
Lemma getEmails_positive (limit : Z) (w : World) :
  1 <= limit ->
  fst (getEmails limit w)
  = Ok (firstn (Z.to_nat (Z.min limit (Z.of_nat (length (emails (redis w))))))
               (emails (redis w))).
Proof.
  intros Hl. rewrite getEmails_ok, slice_from_0 by lia. f_equal.
  destruct (Z.le_ge_cases limit (Z.of_nat (length (emails (redis w))))) as [Hle|Hge].
  - rewrite Z.min_l by lia. f_equal. lia.
  - rewrite Z.min_r by lia. rewrite !firstn_all2 by lia. reflexivity.
Qed.

(** With limit 0 the range is [0 .. -1], which is the whole list. *)
Lemma getEmails_zero (w : World) :
  fst (getEmails 0 w) = Ok (emails (redis w)).
Proof. rewrite getEmails_ok. simpl. rewrite slice_all. reflexivity. Qed.

Lemma getEmail_ok (id : string) (w : World) :
  fst (getEmail id w) = Ok (byId (redis w) !! id ≫= Cmd.live (now w)).
Proof.
  unfold getEmail, try_catch, bind, ret. rewrite redis_call_ok. reflexivity.
Qed.

Lemma insert_all_app (s1 s2 : list (N * StoredEmail.t)) (w : World) :
  insert_all (s1 ++ s2) w = insert_all s2 (insert_all s1 w).
Proof.
  revert w. induction s1 as [|[dt e] s1 IH]; intros w; simpl; [reflexivity|].
  apply IH.
Qed.

Lemma delays_app (s1 s2 : list (N * StoredEmail.t)) :
  delays (s1 ++ s2) = (delays s1 + delays s2)%N.
Proof.
  induction s1 as [|[dt e] s1 IH]; simpl; [reflexivity|]. rewrite IH. lia.
Qed.

Lemma insert_all_now (sched : list (N * StoredEmail.t)) (w : World) :
  now (insert_all sched w) = now w + Z.of_N (delays sched).
Proof.
  revert w. induction sched as [|[dt e] sched IH]; intros w; simpl; [lia|].
  destruct (addEmail_ok e (elapse dt w)) as (w' & -> & _ & _ & _ & Hnow & _).
  rewrite IH. simpl. rewrite Hnow. simpl. lia.
Qed.

Lemma insert_all_emails_bounded (sched : list (N * StoredEmail.t)) (w : World) :
  (length (emails (redis w)) <= 100)%nat ->
  emails (redis (insert_all sched w))
  = firstn 100 (rev (map snd sched) ++ emails (redis w)).
Proof.
  revert w. induction sched as [|[dt e] sched IH]; intros w Hw.
  - cbn [insert_all map rev app]. symmetry. apply firstn_all2. exact Hw.
  - cbn [insert_all map rev snd].
    destruct (addEmail_ok e (elapse dt w)) as (w' & -> & Hem & _).
    cbn [snd]. rewrite IH.
    + rewrite Hem. cbn [elapse redis].
      rewrite firstn_app_firstn, <- app_assoc. reflexivity.
    + rewrite Hem. apply firstn_le_length.
Qed.

Lemma insert_all_emails (sched : list (N * StoredEmail.t)) (w : World) :
  sched <> [] ->
  emails (redis (insert_all sched w))
  = firstn 100 (rev (map snd sched) ++ emails (redis w)).
Proof.
  destruct sched as [|[dt e] sched]; [congruence|]. intros _.
  cbn [insert_all map rev snd].
  destruct (addEmail_ok e (elapse dt w)) as (w' & -> & Hem & _).
  cbn [snd]. rewrite insert_all_emails_bounded.
  - rewrite Hem. cbn [elapse redis].
    rewrite firstn_app_firstn, <- app_assoc. reflexivity.
  - rewrite Hem. apply firstn_le_length.
Qed.

(** A by-id entry survives later inserts: it is only ever replaced by a
    record of the same id that expires later. *)
Lemma insert_all_keeps (post : list (N * StoredEmail.t)) (w : World)
      (key : string) (v : StoredEmail.t) (t : Z) :
  byId (redis w) !! key = Some (v, t) ->
  StoredEmail.id v = key ->
  t <= now w + ttl_ms ->
  exists v' t',
    byId (redis (insert_all post w)) !! key = Some (v', t')
    /\ t <= t'
    /\ StoredEmail.id v' = key
    /\ (Forall (fun p => StoredEmail.id (snd p) <> key) post -> v' = v /\ t' = t).
Proof.
  revert w v t. induction post as [|[dt e] post IH]; intros w v t Hv Hid Ht.
  - exists v, t. cbn [insert_all].
    split; [exact Hv|]. split; [lia|]. split; [exact Hid|]. intros _. split; reflexivity.
  - cbn [insert_all].
    destruct (addEmail_ok e (elapse dt w)) as (w' & -> & _ & Hby & _ & Hnow & _).
    cbn [snd]. cbn [elapse redis now] in Hby, Hnow.
    destruct (decide (StoredEmail.id e = key)) as [He | He].
    + destruct (IH w' e (now w + Z.of_N dt + ttl_ms)) as (v' & t' & Hl & Hle & Hid' & _).
      * rewrite Hby, He. apply lookup_insert_eq.
      * exact He.
      * rewrite Hnow. lia.
      * exists v', t'. split; [exact Hl|]. split; [lia|]. split; [exact Hid'|].
        intros Hall. inversion Hall as [|? ? Hne _]. cbn [snd] in Hne. congruence.
    + destruct (IH w' v t) as (v' & t' & Hl & Hle & Hid' & Hsame).
      * rewrite Hby, lookup_insert_ne by exact He. exact Hv.
      * exact Hid.
      * rewrite Hnow. lia.
      * exists v', t'. split; [exact Hl|]. split; [exact Hle|]. split; [exact Hid'|].
        intros Hall. inversion Hall. apply Hsame. assumption.
Qed.

(** Among the inserts from number [i] on, one is the last to carry the id
    of insert number [i]. *)
Lemma last_carrier (sched : list (N * StoredEmail.t)) (i : nat) (dt : N)
      (e : StoredEmail.t) :
  sched !! i = Some (dt, e) ->
  exists j dt' e',
    (i <= j)%nat
    /\ sched !! j = Some (dt', e')
    /\ StoredEmail.id e' = StoredEmail.id e
    /\ Forall (fun p => StoredEmail.id (snd p) <> StoredEmail.id e) (skipn (S j) sched).
Proof.
  induction sched as [|[d x] sched IH] using rev_ind; intros Hi; [discriminate|].
  destruct (decide (StoredEmail.id x = StoredEmail.id e)) as [Hx|Hx].
  - exists (length sched), d, x.
    pose proof (lookup_lt_Some _ _ _ Hi) as Hlt. rewrite length_app in Hlt. cbn in Hlt.
    split; [lia|]. split; [apply list_lookup_middle; reflexivity|].
    split; [exact Hx|].
    rewrite skipn_all2 by (rewrite length_app; cbn; lia). constructor.
  - destruct (decide (i < length sched)%nat) as [Hlt|Hge].
    + rewrite lookup_app_l in Hi by exact Hlt.
      destruct (IH Hi) as (j & dt' & e' & Hij & Hj & Hid & Hrest).
      exists j, dt', e'. pose proof (lookup_lt_Some _ _ _ Hj) as Hjlt.
      split; [exact Hij|]. split; [rewrite lookup_app_l by exact Hjlt; exact Hj|].
      split; [exact Hid|].
      rewrite skipn_app. apply Forall_app. split; [exact Hrest|].
      replace (S j - length sched)%nat with 0%nat by lia.
      constructor; [exact Hx | constructor].
    + pose proof (lookup_lt_Some _ _ _ Hi) as Hlt. rewrite length_app in Hlt. cbn in Hlt.
      assert (i = length sched) by lia. subst i.
      rewrite list_lookup_middle in Hi by reflexivity. congruence.
Qed.

Lemma delays_firstn_mono (sched : list (N * StoredEmail.t)) (i j : nat) :
  (i <= j)%nat -> (delays (firstn i sched) <= delays (firstn j sched))%N.
Proof.
  revert i j. induction sched as [|[d x] sched IH]; intros i j Hij.
  - rewrite !firstn_nil. lia.
  - destruct i as [|i]; [cbn [firstn delays]; lia|].
    destruct j as [|j]; [lia|]. cbn [firstn delays].
    specialize (IH i j). lia.
Qed.

(** C1, as the code has it. After N+k inserts (k > 0, N = 100) into any store
    the list is capped: it holds exactly the N records inserted last, newest
    first, the k records inserted first being pushed out of it by position,
    and [getEmails] shows these N for every limit of N or more. The by-id
    entry of a record pushed out is overwritten by every later insert of the
    same id: [getEmail] on its id answers with the last record inserted under
    that id, from the end of the inserts until 30 days after that record's
    insert, which is no earlier than its own, and with nothing from then on.
    When no later insert carries its id, that record is the evicted record
    itself. *)
Theorem bounded_store_eviction (w : World) (sched : list (N * StoredEmail.t)) (k : nat) :
  (0 < k)%nat ->
  length sched = (100 + k)%nat ->
  let w' := insert_all sched w in
  let inserted := map snd sched in
  emails (redis w') = rev (skipn k inserted)
  /\ length (emails (redis w')) = 100%nat
  /\ (forall limit, 100 <= limit ->
        fst (getEmails limit w') = Ok (rev (skipn k inserted)))
  /\ forall (i : nat) (dt : N) (e : StoredEmail.t),
       (i < k)%nat ->
       sched !! i = Some (dt, e) ->
       exists j dt' e',
         (i <= j)%nat
         /\ sched !! j = Some (dt', e')
         /\ StoredEmail.id e' = StoredEmail.id e
         /\ Forall (fun p => StoredEmail.id (snd p) <> StoredEmail.id e)
                   (skipn (S j) sched)
         /\ inserted_at w sched i <= inserted_at w sched j
         /\ (forall later : N,
               now w' + Z.of_N later < inserted_at w sched j + ttl_ms ->
               fst (getEmail (StoredEmail.id e) (elapse later w')) = Ok (Some e'))
         /\ (forall later : N,
               inserted_at w sched j + ttl_ms <= now w' + Z.of_N later ->
               fst (getEmail (StoredEmail.id e) (elapse later w')) = Ok None)
         /\ (Forall (fun p => StoredEmail.id (snd p) <> StoredEmail.id e)
                    (skipn (S i) sched) -> j = i /\ e' = e).
Proof.
  intros Hk Hlen w' inserted.
  assert (Hins : length inserted = (100 + k)%nat)
    by (subst inserted; rewrite length_map; exact Hlen).
  assert (Hlist : emails (redis w') = rev (skipn k inserted)).
  { subst w'. rewrite insert_all_emails by (intros ->; simpl in Hlen; lia).
    fold inserted. rewrite firstn_app, length_rev, Hins.
    replace (100 - (100 + k))%nat with 0%nat by lia.
    rewrite firstn_O, app_nil_r, firstn_rev, Hins.
    do 2 f_equal. lia. }
  assert (Hlen100 : length (emails (redis w')) = 100%nat).
  { rewrite Hlist, length_rev, length_skipn. lia. }
  split; [exact Hlist|]. split; [exact Hlen100|]. split.
  - intros limit Hlimit. rewrite getEmails_ok, slice_from_0 by lia.
    rewrite firstn_all2 by lia. rewrite Hlist. reflexivity.
  - intros i dt e Hi Hlook.
    destruct (last_carrier sched i dt e Hlook) as (j & dt' & e' & Hij & Hj & Hid & Hrest).
    exists j, dt', e'.
    split; [exact Hij|]. split; [exact Hj|]. split; [exact Hid|]. split; [exact Hrest|].
    pose proof (take_drop_middle _ _ _ Hj) as Hsplit.
    set (pre := take j sched) in *. set (post := drop (S j) sched) in *.
    assert (Hw' : w' = insert_all post (snd (addEmail e' (elapse dt' (insert_all pre w))))).
    { subst w'. rewrite <- Hsplit at 1. rewrite insert_all_app. reflexivity. }
    destruct (addEmail_ok e' (elapse dt' (insert_all pre w)))
      as (w2 & Hadd & _ & Hby & _ & Hnow & _).
    rewrite Hadd in Hw'. cbn [snd] in Hw'.
    cbn [elapse redis now] in Hby, Hnow. rewrite insert_all_now in Hby, Hnow.
    assert (Hat : inserted_at w sched j = now w + Z.of_N (delays pre) + Z.of_N dt').
    { unfold inserted_at. rewrite (take_S_r _ _ _ Hj). fold pre.
      rewrite delays_app. simpl. lia. }
    destruct (insert_all_keeps post w2 (StoredEmail.id e) e'
                (now w + Z.of_N (delays pre) + Z.of_N dt' + ttl_ms))
      as (v & t' & Hl & _ & _ & Hsame).
    + rewrite Hby, Hid. apply lookup_insert_eq.
    + exact Hid.
    + rewrite Hnow. lia.
    + destruct (Hsame Hrest) as [-> ->]. rewrite <- Hw' in Hl.
      split; [|split; [|split]].
      * unfold inserted_at.
        pose proof (delays_firstn_mono sched (S i) (S j)). lia.
      * intros later Hlater.
        rewrite getEmail_ok. cbn [elapse redis now]. rewrite Hl. cbn.
        unfold Cmd.live. cbn [fst snd].
        destruct (Z.ltb_spec (now w' + Z.of_N later)
                    (now w + Z.of_N (delays pre) + Z.of_N dt' + ttl_ms));
          [reflexivity | lia].
      * intros later Hlater.
        rewrite getEmail_ok. cbn [elapse redis now]. rewrite Hl. cbn.
        unfold Cmd.live. cbn [fst snd].
        destruct (Z.ltb_spec (now w' + Z.of_N later)
                    (now w + Z.of_N (delays pre) + Z.of_N dt' + ttl_ms));
          [lia | reflexivity].
      * intros Hnone.
        destruct (decide (j = i)) as [->|Hne].
        -- split; [reflexivity|]. congruence.
        -- exfalso. assert (Hlt : (i < j)%nat) by lia.
           assert (Hin : skipn (S i) sched !! (j - S i)%nat = Some (dt', e')).
           { rewrite lookup_drop. replace (S i + (j - S i))%nat with j by lia. exact Hj. }
           apply (proj1 (Forall_lookup _ _) Hnone _ _) in Hin. cbn [snd] in Hin.
           congruence.
Qed.

Lemma lookup_del_emails (ids : list string) (m : gmap string (StoredEmail.t * Z))
      (key : string) :
  foldl (fun m id => delete id m) m ids !! key
  = if decide (key ∈ ids) then None else m !! key.
Proof.
  revert m. induction ids as [|id ids IH]; intros m; simpl.
  - destruct (decide (key ∈ [])) as [Hin|_]; [inversion Hin | reflexivity].
  - rewrite IH. destruct (decide (key ∈ ids)) as [Hin|Hout].
    + rewrite decide_True by (right; exact Hin). reflexivity.
    + destruct (decide (key = id)) as [->|Hne].
      * rewrite decide_True by left. apply lookup_delete_eq.
      * rewrite decide_False by (intros Hin; inversion Hin; subst; tauto).
        apply lookup_delete_ne. congruence.
Qed.

Lemma clear_ok (w : World) :
  exists w',
    clear w = (Ok true, w')
    /\ emails (redis w') = []
    /\ lastReceived (redis w') = None
    /\ now w' = now w
    /\ byId (redis w')
       = foldl (fun m id => delete id m) (byId (redis w))
               (map StoredEmail.id (emails (redis w))).
Proof.
  unfold clear, try_catch, bind, ret. rewrite redis_call_ok. cbn [fst snd Cmd.lrange].
  rewrite slice_all.
  destruct (emails (redis w)) as [|e es] eqn:Hes.
  - cbn [length Nat.ltb Nat.leb]. rewrite !redis_call_ok. cbn.
    eexists. split; [reflexivity|]. cbn. repeat split.
  - cbn [length Nat.ltb Nat.leb]. rewrite !redis_call_ok. cbn.
    eexists. split; [reflexivity|]. cbn. repeat split.
Qed.

(** What [clear] does delete: the list, the scalar, and the by-id entry of
    every record that is in the list at that moment. *)
Lemma clear_removes_listed (w : World) (e : StoredEmail.t) :
  e ∈ emails (redis w) ->
  byId (redis (snd (clear w))) !! StoredEmail.id e = None.
Proof.
  intros He. destruct (clear_ok w) as (w' & -> & _ & _ & _ & Hby). cbn [snd].
  rewrite Hby, lookup_del_emails, decide_True; [reflexivity|].
  apply list_elem_of_fmap. exists e. split; [reflexivity | exact He].
Qed.

(** After [clear] the list reads empty for every limit, and the stats are
    those of an empty store. *)
Lemma clear_then_empty (w : World) (limit : Z) :
  fst (getEmails limit (snd (clear w))) = Ok []
  /\ fst (getStats (snd (clear w)))
     = Ok {| Stats.totalEmails := 0; Stats.newestEmail := None;
             Stats.oldestEmail := None; Stats.lastReceived := None |}.
Proof.
  destruct (clear_ok w) as (w' & -> & Hem & Hlast & _). cbn [snd]. split.
  - rewrite getEmails_ok, Hem, slice_nil. reflexivity.
  - unfold getStats, try_catch, bind, ret. rewrite !redis_call_ok. cbn.
    rewrite Hem, Hlast. reflexivity.
Qed.

(** What it does not: the by-id entry of a record that is no longer in the list. *)
Lemma clear_keeps_unlisted (w : World) (key : string) :
  key ∉ map StoredEmail.id (emails (redis w)) ->
  byId (redis (snd (clear w))) !! key = byId (redis w) !! key.
Proof.
  intros Hout. destruct (clear_ok w) as (w' & -> & _ & _ & _ & Hby). cbn [snd].
  rewrite Hby, lookup_del_emails, decide_False; [reflexivity | exact Hout].
Qed.

End StoreFacts.

Lemma sample_backend_healthy : healthy (backend := Sample.backend).
Proof. intros n. reflexivity. Qed.

Lemma bounded_store_eviction_witness :
  let w' := insert_all (node := Sample.node) (backend := Sample.backend)
              (Sample.sched 101) Sample.empty in
  emails (redis w') = rev (skipn 1 (map snd (Sample.sched 101)))
  /\ fst (getEmails (backend := Sample.backend) 200 w')
     = Ok (rev (skipn 1 (map snd (Sample.sched 101))))
  /\ fst (getEmail (backend := Sample.backend) "m0" (elapse 5 w'))
     = Ok (Some (Sample.email 0)).
Proof.
  destruct (bounded_store_eviction (node := Sample.node) (backend := Sample.backend)
              sample_backend_healthy Sample.empty (Sample.sched 101) 1)
    as (Hlist & _ & Hget & Hby).
  - lia.
  - reflexivity.
  - split; [exact Hlist|]. split; [apply Hget; lia|].
    destruct (Hby 0%nat 1000%N (Sample.email 0))
      as (j & dt' & e' & _ & _ & _ & _ & _ & Hlive & _ & Hsame).
    + lia.
    + reflexivity.
    + destruct Hsame as [-> ->].
      * vm_compute. repeat (constructor; [discriminate|]). constructor.
      * apply Hlive. vm_compute. reflexivity.
Defined.

(** C1 as stated fails when an id comes back: of 101 inserts the first and the
    last carry the id [dup]. The first record is pushed out of the list, and
    [getEmail] on its id answers with the last record, not with it. *)
Lemma evicted_record_overwritten :
  let w' := insert_all (node := Sample.node) (backend := Sample.backend)
              Sample2.reused Sample.empty in
  length Sample2.reused = 101%nat
  /\ Sample2.reused !! 0%nat = Some (1000%N, Sample2.dup "old")
  /\ length (emails (redis w')) = 100%nat
  /\ last (emails (redis w')) = Some (Sample.email 1)
  /\ fst (getEmail (backend := Sample.backend) "dup" w') = Ok (Some (Sample2.dup "new"))
  /\ fst (getEmail (backend := Sample.backend) (StoredEmail.id (Sample2.dup "old")) w')
     <> Ok (Some (Sample2.dup "old")).
Proof. vm_compute. repeat split. discriminate. Qed.

(** C3. Insert 101 records with distinct ids into the empty store, then
    [clear()]: the call reports success, and the list and the last-received
    scalar are gone, but the by-id entry of the record that the 101st insert
    pushed out of the list is still there and [getEmail] still answers it. *)
Theorem clear_leaves_evicted_entries :
  let w := insert_all (node := Sample.node) (backend := Sample.backend)
             (Sample.sched 101) Sample.empty in
  let w' := snd (clear (backend := Sample.backend) w) in
  fst (clear (backend := Sample.backend) w) = Ok true
  /\ emails (redis w') = []
  /\ lastReceived (redis w') = None
  /\ fst (getEmail (backend := Sample.backend) "m100" w') = Ok None
  /\ fst (getEmail (backend := Sample.backend) "m0" w') = Ok (Some (Sample.email 0)).
Proof. vm_compute. repeat split. Qed.

(** C8. On a store holding one record, [getEmails(0)] asks the backend for the
    range 0 .. -1 and gets the whole list: one record, where the first
    [min(0, 1)] entries are none. *)
Theorem getEmails_zero_returns_all :
  let w := insert_all (node := Sample.node) (backend := Sample.backend)
             (Sample.sched 1) Sample.empty in
  emails (redis w) = [Sample.email 0]
  /\ fst (getEmails (backend := Sample.backend) 0 w) = Ok [Sample.email 0]
  /\ firstn (Z.to_nat (Z.min 0 (Z.of_nat (length (emails (redis w))))))
            (emails (redis w)) = [].
Proof. vm_compute. repeat split. Qed.

(** ** The webhook *)

Section WebhookFacts.
Context {node : Node} {provider : Provider} {backend : Backend}.

Lemma fetched_app (t : nat) (l1 l2 : list (ProviderCall * bool)) :
  fetched t (l1 ++ l2) = (fetched t l1 ++ fetched (t + length l1) l2)%list.
Proof.
  revert t. induction l1 as [|entry l1 IH]; intros t; simpl.
  - f_equal. lia.
  - rewrite IH, <- app_assoc. do 3 f_equal. lia.
Qed.

Lemma tracks_refl (s : Frame) : tracks s s.
Proof.
  exists []. simpl. repeat split; [lia | now rewrite app_nil_r].
Qed.

Lemma tracks_trans (s1 s2 s3 : Frame) : tracks s1 s2 -> tracks s2 s3 -> tracks s1 s3.
Proof.
  intros (l1 & Hc1 & Ht1 & Hr1 & Hn1 & He1) (l2 & Hc2 & Ht2 & Hr2 & Hn2 & He2).
  exists (l1 ++ l2)%list. repeat split.
  - rewrite Hc2, Hc1, rev_app_distr, app_assoc. reflexivity.
  - rewrite Ht2, Ht1, length_app. lia.
  - congruence.
  - congruence.
  - rewrite He2, He1, fetched_app, map_app, <- app_assoc, Ht1. reflexivity.
Qed.

Lemma Tracks_ret {A} (a : A) : Tracks (ret a).
Proof. intros s. apply tracks_refl. Qed.

Lemma Tracks_get_emails : Tracks get_emails.
Proof. intros s. apply tracks_refl. Qed.

Lemma Tracks_bind {A B} (m : M Frame A) (f : A -> M Frame B) :
  Tracks m -> (forall a, Tracks (f a)) -> Tracks (bind m f).
Proof.
  intros Hm Hf s. unfold bind. specialize (Hm s).
  destruct (m s) as [[a|e] s1]; simpl in *; [|exact Hm].
  eapply tracks_trans; [exact Hm | apply Hf].
Qed.

Lemma Tracks_try_catch {A} (m : M Frame A) (h : Exn -> M Frame A) :
  Tracks m -> (forall e, Tracks (h e)) -> Tracks (try_catch m h).
Proof.
  intros Hm Hh s. unfold try_catch. specialize (Hm s).
  destruct (m s) as [[a|e] s1]; simpl in *; [exact Hm|].
  eapply tracks_trans; [exact Hm | apply Hh].
Qed.

Lemma Tracks_for_each {A} (l : list A) (f : A -> M Frame unit) :
  (forall a, Tracks (f a)) -> Tracks (for_each l f).
Proof.
  intros Hf. induction l as [|a l IH]; simpl.
  - apply Tracks_ret.
  - apply Tracks_bind; [apply Hf | intros _; exact IH].
Qed.

Lemma Tracks_query {A} (c : ProviderCall) (answer : nat -> option A) :
  (forall id, c <> MessagesGet id) ->
  Tracks (lift (provider_call c answer)).
Proof.
  intros Hc [w es]. unfold lift, provider_call. simpl.
  destruct (answer (tick w)) as [a|]; simpl.
  - exists [(c, true)]. simpl. repeat split; [lia|].
    destruct c; try (now rewrite app_nil_r). now destruct (Hc id).
  - exists [(c, false)]. simpl. repeat split; [lia|].
    destruct c; now rewrite app_nil_r.
Qed.

Lemma Tracks_fetch_and_push (messageId : string) : Tracks (fetch_and_push messageId).
Proof.
  intros [w es]. unfold fetch_and_push, bind, lift, provider_call, push. simpl.
  destruct (messages_get (tick w) messageId) as [m|] eqn:Hm; simpl.
  - exists [(MessagesGet messageId, true)]. simpl. rewrite Hm. simpl.
    repeat split. lia.
  - exists [(MessagesGet messageId, false)]. simpl.
    repeat split; [lia | now rewrite app_nil_r].
Qed.

Lemma Tracks_fetch_latest : Tracks fetch_latest.
Proof.
  unfold fetch_latest. apply Tracks_bind.
  - apply Tracks_query. discriminate.
  - intros messageList. apply Tracks_bind; [|intros _; apply Tracks_get_emails].
    destruct (Api.messages messageList) as [[|m0 ?]|]; try apply Tracks_ret.
    destruct (Js.truthy (Api.id m0)); [apply Tracks_fetch_and_push | apply Tracks_ret].
Qed.

Lemma Tracks_fetch_record (record : Api.HistoryRecord) : Tracks (fetch_record record).
Proof.
  unfold fetch_record. destruct (Api.messagesAdded record) as [added|];
    [|apply Tracks_ret].
  apply Tracks_for_each. intros a. unfold fetch_added.
  destruct (negb _); [apply Tracks_ret | apply Tracks_fetch_and_push].
Qed.

Lemma Tracks_fetch_body (h : HistoryId) : Tracks (fetch_body h).
Proof.
  unfold fetch_body. destruct (negb _); [apply Tracks_get_emails|].
  apply Tracks_bind; [apply Tracks_query; discriminate|].
  intros history. destruct (Api.history history) as [[|r rs]|];
    try apply Tracks_fetch_latest.
  apply Tracks_bind; [|intros _; apply Tracks_get_emails].
  apply Tracks_for_each, Tracks_fetch_record.
Qed.

Lemma Returns_get_emails : Returns_emails get_emails.
Proof. intros s. reflexivity. Qed.

Lemma Returns_bind {A} (m : M Frame A) (f : A -> M Frame (list EmailDetails.t)) :
  (forall a, Returns_emails (f a)) -> Returns_emails (bind m f).
Proof.
  intros Hf s. unfold bind. destruct (m s) as [[a|e] s1]; [apply Hf | exact I].
Qed.

Lemma Returns_fetch_body (h : HistoryId) : Returns_emails (fetch_body h).
Proof.
  unfold fetch_body. destruct (negb _); [apply Returns_get_emails|].
  apply Returns_bind. intros history.
  destruct (Api.history history) as [[|r rs]|];
    try (apply Returns_bind; intros; apply Returns_bind; intros; apply Returns_get_emails);
    apply Returns_bind; intros; apply Returns_get_emails.
Qed.

Lemma fetchNewEmails_tracks (h : HistoryId) (w : World) :
  exists es w1,
    fetchNewEmails h w = (Ok es, w1) /\ tracks (w, []) (w1, es).
Proof.
  unfold fetchNewEmails, try_catch.
  pose proof (Tracks_fetch_body h (w, [])) as Ht.
  pose proof (Returns_fetch_body h (w, [])) as Hr.
  destruct (fetch_body h (w, [])) as [[es|e] [w1 es1]]; simpl in *.
  - subst es. eauto.
  - eauto.
Qed.

Lemma redis_call_frame {A} (cmd : Z -> Redis -> A * Redis) (w : World) :
  calls (snd (redis_call cmd w)) = calls w /\ now (snd (redis_call cmd w)) = now w.
Proof.
  unfold redis_call. destruct (redis_fault (tick w)); [split; reflexivity|].
  destruct (cmd (now w) (redis w)). split; reflexivity.
Qed.

(** [addEmail] never throws, and never talks to the provider. *)
Lemma addEmail_frame (e : StoredEmail.t) (w : World) :
  exists b w', addEmail e w = (Ok b, w') /\ calls w' = calls w /\ now w' = now w.
Proof.
  unfold addEmail, updateStats, try_catch, bind, ret, new_Date_toISOString.
  repeat match goal with
         | |- context [redis_call ?c ?w0] =>
             let Hc := fresh "Hc" in
             let Hn := fresh "Hn" in
             destruct (redis_call_frame c w0) as [Hc Hn];
             destruct (redis_call c w0) as [[?|?] ?]; cbn [snd] in Hc, Hn
         end;
    do 2 eexists; (split; [reflexivity|]); split; congruence.
Qed.

Lemma elapse_0 (w : World) : elapse 0 w = w.
Proof. destruct w. unfold elapse. cbn. f_equal. lia. Qed.

(** Step 4 of the pipeline on a healthy backend: every record the
    reconciliation returned is inserted, in order, stamped with the clock. *)
Lemma store_all (up : healthy) (h : HistoryId) (es : list EmailDetails.t) (w : World) :
  for_each es (fun email =>
                 iso <- new_Date_toISOString ;;
                 addEmail (stored email iso h) ;;
                 ret tt) w
  = (Ok tt, insert_all (map (fun e => (0%N, stored e (toISOString (now w)) h)) es) w).
Proof.
  revert w. induction es as [|e es IH]; intros w; [reflexivity|].
  cbn [for_each map insert_all]. rewrite elapse_0.
  unfold bind at 1. unfold bind at 1. unfold new_Date_toISOString at 1.
  destruct (addEmail_ok up (stored e (toISOString (now w)) h) w)
    as (w' & Hadd & _ & _ & _ & Hnow & _).
  unfold bind at 1. rewrite Hadd. unfold ret at 1. cbn [snd].
  rewrite IH, Hnow. reflexivity.
Qed.

(** C2. Whatever the request, the answers of the provider and the failures of
    the backend, [POST] answers the transport with status 200: also when the
    request body cannot be read, when the notification cannot be parsed, and
    when reconciliation or storage throws. *)
Theorem POST_always_acknowledges (request : Parsed PubSub.Message) (w : World) :
  exists w', POST request w = (Ok ok200, w') /\ status ok200 = 200%nat.
Proof.
  unfold POST, try_catch, bind, ret, throw.
  destruct request as [| |b]; try (eexists; split; reflexivity).
  destruct (Js.truthy _).
  - destruct (process _ w) as [[[]|e] w1]; eexists; split; reflexivity.
  - eexists; split; reflexivity.
Qed.

(** C5. A cursor whose string form is not one or more decimal digits: the
    reconciliation returns the empty sequence, does not throw, and leaves the
    world as it was, so that no request of any kind went to the provider. *)
Theorem reconcile_rejects_invalid_cursor (h : HistoryId) (w : World) :
  Js.matches_digits (String_ h) = false ->
  fetchNewEmails h w = (Ok [], w).
Proof.
  intros Hh. unfold fetchNewEmails, try_catch, fetch_body. rewrite Hh. reflexivity.
Qed.

(** C9. A notification whose cursor is the string [test-123]: [POST] sends
    nothing to the provider and answers 200; the placeholder record has the
    marker [[Test]] in its subject and [test-123] in its snippet; and on a
    healthy backend exactly this one record is put in front of the list (and
    under its id in the by-id index). *)
Theorem test_notification_placeholder
        (body : PubSub.Message) (inner : PubSub.Inner) (d : string)
        (n : GmailNotification) (w : World) :
  PubSub.message body = Some inner ->
  present (PubSub.data inner) d ->
  JSON_parse (base64_utf8 d) = Obj n ->
  historyId n = HStr "test-123" ->
  let p := testEmail n (now w) (toISOString (now w)) (toISOString (now w)) in
  exists w',
    POST (Obj body) w = (Ok ok200, w')
    /\ calls w' = calls w
    /\ Js.includes (StoredEmail.subject p) "[Test]" = true
    /\ Js.includes (StoredEmail.snippet p) "test-123" = true
    /\ (healthy ->
        emails (redis w') = firstn 100 (p :: emails (redis w))
        /\ byId (redis w')
           = <[StoredEmail.id p := (p, now w + ttl_ms)]> (byId (redis w))).
Proof.
  intros Hmsg Hd Hparse Hhid p.
  apply truthy_present in Hd as [Htruthy Hdata].
  unfold POST, try_catch at 1. unfold bind at 1. unfold ret at 1.
  rewrite Hmsg. unfold bind at 1. rewrite Htruthy, Hdata.
  unfold try_catch at 1, process. rewrite Hparse.
  unfold bind at 1. unfold ret at 1. rewrite Hhid.
  cbn [String_]. replace (Js.startsWith "test-123" "test") with true by reflexivity.
  unfold bind at 1. unfold Date_now at 1.
  unfold bind at 1. unfold new_Date_toISOString at 1.
  unfold bind at 1. unfold new_Date_toISOString at 1.
  unfold bind at 1. fold p.
  destruct (addEmail_frame p w) as (b & w' & Hadd & Hcalls & Hnow).
  exists w'. rewrite Hadd. unfold ret.
  split; [reflexivity|]. split; [exact Hcalls|].
  split; [reflexivity|].
  split; [subst p; cbn [testEmail StoredEmail.snippet]; rewrite Hhid; reflexivity|].
  intros up. destruct (addEmail_ok up p w) as (w2 & Hadd2 & Hem & Hby & _).
  rewrite Hadd in Hadd2. injection Hadd2 as _ <-. split; assumption.
Qed.

Lemma all_answered_app (l1 l2 : list (ProviderCall * bool)) :
  all_answered l1 -> all_answered l2 -> all_answered (l1 ++ l2).
Proof. unfold all_answered. intros H1 H2. apply Forall_app. split; assumption. Qed.

Lemma runs_refl (s : Frame) : runs true s s.
Proof.
  exists []. simpl. repeat split; [lia | now rewrite app_nil_r | constructor].
Qed.

Lemma runs_trans (ok : bool) (s1 s2 s3 : Frame) :
  runs true s1 s2 -> runs ok s2 s3 -> runs ok s1 s3.
Proof.
  intros (l1 & Hc1 & Ht1 & Hr1 & Hn1 & He1 & Ha1) (l2 & Hc2 & Ht2 & Hr2 & Hn2 & He2 & Ha2).
  exists (l1 ++ l2)%list. repeat split.
  - rewrite Hc2, Hc1, rev_app_distr, app_assoc. reflexivity.
  - rewrite Ht2, Ht1, length_app. lia.
  - congruence.
  - congruence.
  - rewrite He2, He1, fetched_app, map_app, <- app_assoc, Ht1. reflexivity.
  - destruct ok.
    + apply all_answered_app; assumption.
    + destruct Ha2 as (before & c & -> & Hb).
      exists (l1 ++ before)%list, c. split; [apply app_assoc|].
      apply all_answered_app; assumption.
Qed.

Lemma Runs_ret {A} (a : A) : Runs (ret a).
Proof. intros s. apply runs_refl. Qed.

Lemma Runs_get_emails : Runs get_emails.
Proof. intros s. apply runs_refl. Qed.

Lemma Runs_bind {A B} (m : M Frame A) (f : A -> M Frame B) :
  Runs m -> (forall a, Runs (f a)) -> Runs (bind m f).
Proof.
  intros Hm Hf s. unfold bind. specialize (Hm s).
  destruct (m s) as [[a|e] s1]; cbn [fst snd is_ok] in *; [|exact Hm].
  eapply runs_trans; [exact Hm | apply Hf].
Qed.

Lemma Runs_for_each {A} (l : list A) (f : A -> M Frame unit) :
  (forall a, Runs (f a)) -> Runs (for_each l f).
Proof.
  intros Hf. induction l as [|a l IH]; simpl.
  - apply Runs_ret.
  - apply Runs_bind; [apply Hf | intros _; exact IH].
Qed.

Lemma Runs_query {A} (c : ProviderCall) (answer : nat -> option A) :
  (forall id, c <> MessagesGet id) ->
  Runs (lift (provider_call c answer)).
Proof.
  intros Hc [w es]. unfold lift, provider_call. simpl.
  destruct (answer (tick w)) as [a|]; simpl.
  - exists [(c, true)]. simpl. repeat split; [lia | | repeat constructor].
    destruct c; try (now rewrite app_nil_r). now destruct (Hc id).
  - exists [(c, false)]. simpl. repeat split; [lia | |].
    + destruct c; now rewrite app_nil_r.
    + exists [], c. split; [reflexivity | constructor].
Qed.

Lemma Runs_fetch_and_push (messageId : string) : Runs (fetch_and_push messageId).
Proof.
  intros [w es]. unfold fetch_and_push, bind, lift, provider_call, push. simpl.
  destruct (messages_get (tick w) messageId) as [m|] eqn:Hm; simpl.
  - exists [(MessagesGet messageId, true)]. simpl. rewrite Hm. simpl.
    repeat split; [lia | repeat constructor].
  - exists [(MessagesGet messageId, false)]. simpl.
    repeat split; [lia | now rewrite app_nil_r |].
    exists [], (MessagesGet messageId). split; [reflexivity | constructor].
Qed.

Lemma Runs_fetch_latest : Runs fetch_latest.
Proof.
  unfold fetch_latest. apply Runs_bind.
  - apply Runs_query. discriminate.
  - intros messageList. apply Runs_bind; [|intros _; apply Runs_get_emails].
    destruct (Api.messages messageList) as [[|m0 ?]|]; try apply Runs_ret.
    destruct (Js.truthy (Api.id m0)); [apply Runs_fetch_and_push | apply Runs_ret].
Qed.

Lemma Runs_fetch_record (record : Api.HistoryRecord) : Runs (fetch_record record).
Proof.
  unfold fetch_record. destruct (Api.messagesAdded record) as [added|];
    [|apply Runs_ret].
  apply Runs_for_each. intros a. unfold fetch_added.
  destruct (negb _); [apply Runs_ret | apply Runs_fetch_and_push].
Qed.

Lemma Runs_fetch_body (h : HistoryId) : Runs (fetch_body h).
Proof.
  unfold fetch_body. destruct (negb _); [apply Runs_get_emails|].
  apply Runs_bind; [apply Runs_query; discriminate|].
  intros history. destruct (Api.history history) as [[|r rs]|];
    try apply Runs_fetch_latest.
  apply Runs_bind; [|intros _; apply Runs_get_emails].
  apply Runs_for_each, Runs_fetch_record.
Qed.

(** The reconciliation returns the array as it stands when the run ends,
    and the run ends at the first request that fails. *)
Lemma fetchNewEmails_runs (h : HistoryId) (w : World) :
  exists es w1 ok,
    fetchNewEmails h w = (Ok es, w1) /\ runs ok (w, []) (w1, es).
Proof.
  unfold fetchNewEmails, try_catch.
  pose proof (Runs_fetch_body h (w, [])) as Ht.
  pose proof (Returns_fetch_body h (w, [])) as Hr.
  destruct (fetch_body h (w, [])) as [[es|e] [w1 es1]]; cbn [fst snd is_ok] in *.
  - subst es. exists es1, w1, true. split; [reflexivity | exact Ht].
  - exists es1, w1, false. split; [reflexivity | exact Ht].
Qed.

(** C4, as the code has it. The reconciliation never throws, and it ends at
    the first request that fails: every request before it was answered and
    none follows it. It returns the details of the messages the provider
    handed over, in order: when a request fails, those fetched before it, and
    none when no message had been fetched yet. It leaves the backend alone,
    and on a healthy backend [POST] then stores exactly the records returned. *)
Theorem reconcile_keeps_fetched (h : HistoryId) (w : World) :
  exists es w1 log,
    fetchNewEmails h w = (Ok es, w1)
    /\ calls w1 = (rev log ++ calls w)%list
    /\ redis w1 = redis w
    /\ stops_at_failure log
    /\ es = map extractEmailDetails (fetched (tick w) log)
    /\ (forall c before, log = (before ++ [(c, false)])%list ->
        es = map extractEmailDetails (fetched (tick w) before))
    /\ (forall c, log = [(c, false)] -> es = [])
    /\ (forall body inner d n,
          PubSub.message body = Some inner ->
          present (PubSub.data inner) d ->
          JSON_parse (base64_utf8 d) = Obj n ->
          historyId n = h ->
          Js.startsWith (String_ h) "test" = false ->
          healthy ->
          POST (Obj body) w
          = (Ok ok200,
             insert_all (map (fun e => (0%N, stored e (toISOString (now w)) h)) es) w1)).
Proof.
  destruct (fetchNewEmails_runs h w)
    as (es & w1 & ok & Hfetch & log & Hc & Ht & Hr & Hn & He & Hstop).
  cbn [fst snd app] in Hc, Ht, Hr, Hn, He.
  exists es, w1, log. split; [exact Hfetch|]. split; [exact Hc|].
  split; [exact Hr|].
  split; [destruct ok; [left; exact Hstop | right; exact Hstop]|].
  split; [exact He|].
  split; [|split].
  - intros c before ->. rewrite He, fetched_app.
    destruct c; cbn [fetched answer_of option_list app]; rewrite app_nil_r; reflexivity.
  - intros c ->. rewrite He. destruct c; reflexivity.
  - intros body inner d n Hmsg Hd Hparse Hhid Htest up.
    apply truthy_present in Hd as [Htruthy Hdata].
    unfold POST, try_catch at 1. unfold bind at 1. unfold ret at 1.
    rewrite Hmsg. unfold bind at 1. rewrite Htruthy, Hdata.
    unfold try_catch at 1, process. rewrite Hparse.
    unfold bind at 1. unfold ret at 1. rewrite Hhid, Htest.
    unfold bind at 1. rewrite Hfetch.
    destruct es as [|e es'].
    + reflexivity.
    + cbn [length Nat.ltb Nat.leb]. rewrite (store_all up), Hn. reflexivity.
Qed.

End WebhookFacts.

Lemma reconcile_rejects_invalid_cursor_witness :
  fetchNewEmails (node := Sample.node) (provider := Sample.flaky) (HNum "1e+21") Sample.empty
  = (Ok [], Sample.empty).
Proof.
  apply (reconcile_rejects_invalid_cursor (node := Sample.node) (provider := Sample.flaky)
           (HNum "1e+21") Sample.empty).
  reflexivity.
Defined.

Lemma test_notification_placeholder_witness :
  exists w',
    POST (node := Sample.node) (provider := Sample.flaky) (backend := Sample.backend)
         (Sample.request "test-123") Sample.empty = (Ok ok200, w')
    /\ calls w' = []
    /\ (healthy (backend := Sample.backend) ->
        exists p, emails (redis w') = [p]
                  /\ StoredEmail.snippet p = "Test notification with history ID: test-123").
Proof.
  destruct (test_notification_placeholder
              (node := Sample.node) (provider := Sample.flaky) (backend := Sample.backend)
              {| PubSub.message := Some {| PubSub.data := Some "test-123";
                                           PubSub.messageId := "1";
                                           PubSub.publishTime := "2024-01-01T00:00:00Z" |};
                 PubSub.subscription := "projects/p/subscriptions/s" |}
              {| PubSub.data := Some "test-123";
                 PubSub.messageId := "1";
                 PubSub.publishTime := "2024-01-01T00:00:00Z" |}
              "test-123"
              {| emailAddress := "me@example.com"; historyId := HStr "test-123" |}
              Sample.empty)
    as (w' & HPOST & Hcalls & _ & _ & Hstore).
  - reflexivity.
  - split; [reflexivity | discriminate].
  - reflexivity.
  - reflexivity.
  - exists w'. split; [exact HPOST|]. split; [exact Hcalls|].
    intros up. destruct (Hstore up) as [Hem _].
    eexists. split; [exact Hem | reflexivity].
Defined.

(** C4 as stated fails: the provider answers the history query with two new
    messages, hands over the first and fails on the second. The reconciliation
    returns the first message, and [POST] stores it. *)
Lemma reconcile_failure_not_empty :
  let r := fetchNewEmails (node := Sample.node) (provider := Sample.flaky)
             (HStr "42") Sample.empty in
  let after := snd (POST (node := Sample.node) (provider := Sample.flaky)
                         (backend := Sample.backend)
                         (Sample.request "42") Sample.empty) in
  let e1 := extractEmailDetails (node := Sample.node)
              (Sample.message "m1" [] (Some "aGk=") None) in
  head (calls (snd r)) = Some (MessagesGet "m2", false)
  /\ fst r = Ok [e1]
  /\ fst r <> Ok []
  /\ emails (redis after) = [stored e1 "0" (HStr "42")]
  /\ emails (redis after) <> emails (redis Sample.empty).
Proof. vm_compute. repeat split; discriminate. Qed.

Lemma reconcile_keeps_fetched_witness :
  exists es w1,
    fetchNewEmails (node := Sample.node) (provider := Sample.flaky)
                   (HStr "42") Sample.empty = (Ok es, w1)
    /\ POST (node := Sample.node) (provider := Sample.flaky) (backend := Sample.backend)
            (Sample.request "42") Sample.empty
       = (Ok ok200,
          insert_all (node := Sample.node) (backend := Sample.backend)
            (map (fun e => (0%N, stored e "0" (HStr "42"))) es) w1).
Proof.
  destruct (reconcile_keeps_fetched
              (node := Sample.node) (provider := Sample.flaky) (backend := Sample.backend)
              (HStr "42") Sample.empty)
    as (es & w1 & log & Hfetch & _ & _ & _ & _ & _ & _ & HPOST).
  exists es, w1. split; [exact Hfetch|].
  apply (HPOST
           {| PubSub.message := Some {| PubSub.data := Some "42";
                                        PubSub.messageId := "1";
                                        PubSub.publishTime := "2024-01-01T00:00:00Z" |};
              PubSub.subscription := "projects/p/subscriptions/s" |}
           {| PubSub.data := Some "42";
              PubSub.messageId := "1";
              PubSub.publishTime := "2024-01-01T00:00:00Z" |}
           "42"
           {| emailAddress := "me@example.com"; historyId := HStr "42" |}).
  - reflexivity.
  - split; [reflexivity | discriminate].
  - reflexivity.
  - reflexivity.
  - reflexivity.
  - intros n. reflexivity.
Defined.

(** * More properties *)

(** ** The Redis store under faults *)

Ltac step_redis :=
  match goal with
  | |- context [redis_call ?c ?w0] =>
      let Hc := fresh "Hc" in
      let Hn := fresh "Hn" in
      destruct (redis_call_frame c w0) as [Hc Hn];
      destruct (redis_call c w0) as [[?|?] ?]; cbn [snd] in Hc, Hn
  end.

Ltac close_frame :=
  do 2 eexists; (split; [reflexivity|]); split; congruence.

Section StoreFaults.

Context {node : Node} {backend : Backend}.

(** X1. No id makes the key of a by-id entry collide with the key of the
    list, of the last-received scalar or of the connection test, and two ids
    never share a key. *)
Theorem store_keys_never_collide (id1 id2 : string) :
  email_key id1 <> emailsKey
  /\ email_key id1 <> statsKey
  /\ email_key id1 <> "test:connection"
  /\ emailsKey <> statsKey
  /\ (email_key id1 = email_key id2 -> id1 = id2).
Proof.
  split; [discriminate|]. split; [discriminate|]. split; [discriminate|].
  split; [discriminate|]. unfold email_key. intros Heq. injection Heq. trivial.
Qed.

(** X2. Whatever the backend does, the five methods of the store return: none
    of them throws, and none touches the clock or the provider. *)
Theorem store_never_throws (w : World) (e : StoredEmail.t) (limit : Z) (id : string) :
  (exists b w', addEmail e w = (Ok b, w') /\ calls w' = calls w /\ now w' = now w)
  /\ (exists l w', getEmails limit w = (Ok l, w') /\ calls w' = calls w /\ now w' = now w)
  /\ (exists o w', getEmail id w = (Ok o, w') /\ calls w' = calls w /\ now w' = now w)
  /\ (exists s w', getStats w = (Ok s, w') /\ calls w' = calls w /\ now w' = now w)
  /\ (exists b w', clear w = (Ok b, w') /\ calls w' = calls w /\ now w' = now w).
Proof.
  split; [|split; [|split; [|split]]].
  - unfold addEmail, updateStats, try_catch, bind, ret, new_Date_toISOString.
    repeat step_redis; close_frame.
  - unfold getEmails, try_catch, bind, ret. repeat step_redis; close_frame.
  - unfold getEmail, try_catch, bind, ret. repeat step_redis; close_frame.
  - unfold getStats, try_catch, bind, ret. repeat step_redis; close_frame.
  - unfold clear, try_catch, bind, ret. step_redis; [|close_frame].
    destruct (0 <? length a)%nat; repeat step_redis; close_frame.
Qed.

(** X3. While the backend fails every command, the methods answer [false],
    the empty list, nothing, the stats of an empty store and [false], and the
    backend keeps what it had. *)
Theorem store_outage_defaults (w : World) (e : StoredEmail.t) (limit : Z) (id : string) :
  outage ->
  (fst (addEmail e w) = Ok false /\ redis (snd (addEmail e w)) = redis w)
  /\ (fst (getEmails limit w) = Ok [] /\ redis (snd (getEmails limit w)) = redis w)
  /\ (fst (getEmail id w) = Ok None /\ redis (snd (getEmail id w)) = redis w)
  /\ (fst (getStats w)
      = Ok {| Stats.totalEmails := 0; Stats.newestEmail := None;
              Stats.oldestEmail := None; Stats.lastReceived := None |}
      /\ redis (snd (getStats w)) = redis w)
  /\ (fst (clear w) = Ok false /\ redis (snd (clear w)) = redis w).
Proof.
  intros Hdown.
  unfold addEmail, getEmails, getEmail, getStats, clear, try_catch, bind, ret, redis_call.
  rewrite !Hdown. cbn. repeat split.
Qed.

(** X4. An insert is not atomic. When LPUSH is answered and LTRIM fails,
    [addEmail] returns [false] with the record at the head of an untrimmed
    list; when LPUSH and LTRIM are answered and SET fails, it returns [false]
    with the record in the trimmed list and no by-id entry written. *)
Theorem addEmail_partial_failure (w : World) (e : StoredEmail.t) :
  redis_fault (tick w) = false ->
  (redis_fault (S (tick w)) = true ->
   fst (addEmail e w) = Ok false
   /\ emails (redis (snd (addEmail e w))) = e :: emails (redis w)
   /\ byId (redis (snd (addEmail e w))) = byId (redis w)
   /\ lastReceived (redis (snd (addEmail e w))) = lastReceived (redis w))
  /\ (redis_fault (S (tick w)) = false ->
      redis_fault (S (S (tick w))) = true ->
      fst (addEmail e w) = Ok false
      /\ emails (redis (snd (addEmail e w))) = firstn 100 (e :: emails (redis w))
      /\ byId (redis (snd (addEmail e w))) = byId (redis w)
      /\ lastReceived (redis (snd (addEmail e w))) = lastReceived (redis w)).
Proof.
  intros H0. split.
  - intros H1.
    unfold addEmail, try_catch, bind, ret, redis_call. cbn.
    rewrite H0. cbn. rewrite H1. cbn. repeat split.
  - intros H1 H2.
    unfold addEmail, try_catch, bind, ret, redis_call. cbn.
    rewrite H0. cbn. rewrite H1. cbn. rewrite H2. cbn.
    repeat split. apply (slice_from_0 (e :: emails (redis w)) 99). lia.
Qed.

End StoreFaults.

Lemma store_outage_defaults_witness :
  fst (getEmails (backend := Sample2.down) 10 Sample.empty) = Ok []
  /\ fst (clear (backend := Sample2.down) Sample.empty) = Ok false.
Proof.
  destruct (store_outage_defaults (node := Sample.node) (backend := Sample2.down)
              Sample.empty (Sample.email 0) 10 "m0")
    as (_ & [Hlist _] & _ & _ & [Hclear _]).
  - intros n. reflexivity.
  - split; [exact Hlist | exact Hclear].
Defined.

Lemma addEmail_partial_failure_witness :
  emails (redis (snd (addEmail (node := Sample.node) (backend := Sample2.fails_at 1)
                        (Sample.email 0) Sample.empty)))
  = [Sample.email 0]
  /\ fst (addEmail (node := Sample.node) (backend := Sample2.fails_at 2)
            (Sample.email 0) Sample.empty) = Ok false.
Proof.
  split.
  - destruct (addEmail_partial_failure (node := Sample.node)
                (backend := Sample2.fails_at 1) Sample.empty (Sample.email 0))
      as [Htrim _]; [reflexivity|].
    destruct Htrim as (_ & Hem & _); [reflexivity | exact Hem].
  - destruct (addEmail_partial_failure (node := Sample.node)
                (backend := Sample2.fails_at 2) Sample.empty (Sample.email 0))
      as [_ Hset]; [reflexivity|].
    destruct Hset as (Hret & _); [reflexivity | reflexivity | exact Hret].
Defined.

(** ** The Redis store on a healthy backend *)

Section StoreHealthy.

Context {node : Node} {backend : Backend}.
Hypothesis up : healthy.

Lemma slice_head {A} (l : list A) : Cmd.slice l 0 0 = option_list (head l).
Proof.
  rewrite slice_from_0 by lia. destruct l; reflexivity.
Qed.

Lemma slice_last {A} (l : list A) : Cmd.slice l (-1) (-1) = option_list (last l).
Proof.
  destruct l as [|a l] using rev_ind; [reflexivity|].
  rewrite last_snoc. unfold Cmd.slice, Cmd.range. rewrite length_app. cbn [length].
  set (len := Z.of_nat (length l + 1)).
  assert (Hlen : len = Z.of_nat (length l) + 1) by lia.
  cbn [Z.ltb Z.compare].
  destruct (Z.ltb_spec (len + -1) 0) as [?|_]; [lia|].
  destruct (Z.ltb_spec (len + -1) (len + -1)) as [?|_]; [lia|].
  destruct (Z.leb_spec len (len + -1)) as [?|_]; [lia|]. cbn [orb].
  replace (Z.to_nat (len + -1)) with (length l) by lia.
  replace (Z.to_nat (len + -1 - (len + -1) + 1)) with 1%nat by lia.
  rewrite drop_app_length. reflexivity.
Qed.

Lemma slice_nonpositive {A} (l : list A) (limit : Z) :
  limit <= 0 ->
  Cmd.slice l 0 (limit - 1) = firstn (Z.to_nat (Z.of_nat (length l) + limit)) l.
Proof.
  intros Hl. unfold Cmd.slice, Cmd.range.
  set (len := Z.of_nat (length l)).
  assert (Hlen : len = Z.of_nat (length l)) by reflexivity.
  cbn [Z.ltb Z.compare].
  destruct (Z.ltb_spec (limit - 1) 0) as [_|?]; [|lia].
  destruct (Z.ltb_spec (len + (limit - 1)) 0) as [Hneg|Hpos]; cbn [orb].
  - replace (Z.to_nat (len + limit)) with 0%nat by lia. reflexivity.
  - destruct (Z.leb_spec len 0) as [?|_]; [lia|].
    destruct (Z.leb_spec len (len + (limit - 1))) as [?|_]; [lia|].
    rewrite skipn_O. f_equal. lia.
Qed.

(** X5. Insert, then look up: after [addEmail(e)] the record is the head of
    the list and [getEmail] answers it under its id, at every instant before 30
    days have passed and at none from then on. *)
Theorem insert_then_lookup (w : World) (e : StoredEmail.t) (later : N) :
  let w' := snd (addEmail e w) in
  fst (addEmail e w) = Ok true
  /\ fst (getEmails 1 w') = Ok [e]
  /\ (Z.of_N later < ttl_ms ->
      fst (getEmail (StoredEmail.id e) (elapse later w')) = Ok (Some e))
  /\ (ttl_ms <= Z.of_N later ->
      fst (getEmail (StoredEmail.id e) (elapse later w')) = Ok None).
Proof.
  destruct (addEmail_ok up e w) as (w1 & Hadd & Hem & Hby & _ & Hnow & _).
  rewrite Hadd. cbn [fst snd]. split; [reflexivity|]. split; [|split].
  - rewrite (getEmails_ok up), Hem. rewrite slice_from_0 by lia. reflexivity.
  - intros Hl. rewrite (getEmail_ok up). cbn [elapse redis now].
    rewrite Hby, lookup_insert_eq. cbn. unfold Cmd.live. cbn [fst snd].
    destruct (Z.ltb_spec (now w1 + Z.of_N later) (now w + ttl_ms)); [reflexivity | lia].
  - intros Hl. rewrite (getEmail_ok up). cbn [elapse redis now].
    rewrite Hby, lookup_insert_eq. cbn. unfold Cmd.live. cbn [fst snd].
    destruct (Z.ltb_spec (now w1 + Z.of_N later) (now w + ttl_ms)); [lia | reflexivity].
Qed.

(** X6. From any state, after one insert or more the list holds at most 100
    records, and so does every answer of [getEmails]. *)
Theorem store_list_bounded (w : World) (sched : list (N * StoredEmail.t)) (limit : Z) :
  sched <> [] ->
  (length (emails (redis (insert_all sched w))) <= 100)%nat
  /\ exists l, fst (getEmails limit (insert_all sched w)) = Ok l /\ (length l <= 100)%nat.
Proof.
  intros Hne.
  assert (Hlen : (length (emails (redis (insert_all sched w))) <= 100)%nat).
  { rewrite (insert_all_emails up) by exact Hne. apply firstn_le_length. }
  split; [exact Hlen|].
  eexists. split; [apply (getEmails_ok up)|].
  unfold Cmd.slice. destruct (Cmd.range _ 0 (limit - 1)) as [[a b]|]; [|simpl; lia].
  rewrite length_firstn, length_skipn. lia.
Qed.

(** X7. What [getEmails(limit)] reads: for a limit of 1 or more the first
    [min(limit, length)] records; for a limit of 0 or less the range
    [0 .. limit-1] counts from the end, and the answer is the list without its
    last [-limit] records. *)
Theorem getEmails_limit_semantics (w : World) (limit : Z) :
  let l := emails (redis w) in
  (1 <= limit ->
   fst (getEmails limit w) = Ok (firstn (Z.to_nat (Z.min limit (Z.of_nat (length l)))) l))
  /\ (limit <= 0 ->
      fst (getEmails limit w) = Ok (firstn (Z.to_nat (Z.of_nat (length l) + limit)) l)).
Proof.
  intros l. split; intros Hl; rewrite (getEmails_ok up); fold l; f_equal.
  - rewrite slice_from_0 by lia.
    destruct (Z.le_ge_cases limit (Z.of_nat (length l))) as [Hle|Hge].
    + rewrite Z.min_l by lia. f_equal. lia.
    + rewrite Z.min_r by lia. rewrite !firstn_all2 by lia. reflexivity.
  - apply slice_nonpositive, Hl.
Qed.

(** X8. What [clear()] deletes: the list, the last-received scalar, and the
    by-id entries of exactly the ids that are in the list at that moment. *)
Theorem clear_deletes_listed_ids (w : World) (key : string) :
  let w' := snd (clear w) in
  fst (clear w) = Ok true
  /\ emails (redis w') = []
  /\ lastReceived (redis w') = None
  /\ byId (redis w') !! key
     = if decide (key ∈ map StoredEmail.id (emails (redis w))) then None
       else byId (redis w) !! key.
Proof.
  destruct (clear_ok up w) as (w1 & Hclear & Hem & Hlast & _ & Hby).
  rewrite Hclear. cbn [fst snd]. repeat split; try assumption.
  rewrite Hby. apply lookup_del_emails.
Qed.

(** X10. The stats after an insert: the count is the length of the trimmed
    list, the newest date is the date of the record just inserted, the oldest
    date is that of the last record kept, and last-received is the instant of
    the insert as the runtime prints it. *)
Theorem getStats_after_insert (w : World) (e : StoredEmail.t) :
  let w' := snd (addEmail e w) in
  let kept := firstn 100 (e :: emails (redis w)) in
  fst (getStats w')
  = Ok {| Stats.totalEmails := Z.of_nat (length kept);
          Stats.newestEmail := Some (StoredEmail.date e);
          Stats.oldestEmail := StoredEmail.date <$> last kept;
          Stats.lastReceived :=
            if String.eqb (toISOString (now w)) "" then None
            else Some (toISOString (now w)) |}.
Proof.
  destruct (addEmail_ok up e w) as (w1 & Hadd & Hem & _ & Hlast & Hnow & _).
  rewrite Hadd. cbn [snd].
  unfold getStats, try_catch, bind, ret. rewrite !(redis_call_ok up). cbn.
  rewrite Hem, Hlast, Hnow, slice_head, slice_last. cbn.
  unfold Cmd.live. cbn [fst snd].
  destruct (Z.ltb_spec (now w) (now w + ttl_ms)) as [_|Hge];
    [|unfold ttl_ms, thirty_days in Hge; lia].
  cbn. destruct (last (e :: take 99 (emails (redis w))));
    destruct (String.eqb (toISOString (now w)) ""); reflexivity.
Qed.

End StoreHealthy.

(** X9. On a store with an empty list and no last-received scalar, [getStats]
    answers a count of 0 and no dates, whether the backend answers or fails. *)
Theorem getStats_empty_store {backend : Backend} (w : World) :
  emails (redis w) = [] ->
  lastReceived (redis w) = None ->
  fst (getStats w)
  = Ok {| Stats.totalEmails := 0; Stats.newestEmail := None;
          Stats.oldestEmail := None; Stats.lastReceived := None |}.
Proof.
  intros Hem Hlast.
  unfold getStats, try_catch, bind, ret, redis_call. cbn.
  destruct (redis_fault (tick w)); [reflexivity|]. cbn.
  destruct (redis_fault (S (tick w))); [reflexivity|]. cbn.
  destruct (redis_fault (S (S (tick w)))); [reflexivity|]. cbn.
  destruct (redis_fault (S (S (S (tick w))))); [reflexivity|]. cbn.
  rewrite Hem, Hlast. reflexivity.
Qed.

(** ** The in-memory store, and the two stores side by side *)

Section MemoryFacts.

Lemma slice0_nonneg {A} (l : list A) (n : Z) :
  0 <= n -> MemoryStore.slice0 l n = firstn (Z.to_nat n) l.
Proof.
  intros Hn. unfold MemoryStore.slice0.
  destruct (Z.ltb_spec n 0) as [?|_]; [lia|].
  destruct (Z.le_ge_cases n (Z.of_nat (length l))) as [Hle|Hge].
  - rewrite Z.min_l by lia. reflexivity.
  - rewrite Z.min_r by lia. rewrite !firstn_all2 by lia. reflexivity.
Qed.

Lemma slice0_neg {A} (l : list A) (n : Z) :
  n < 0 -> MemoryStore.slice0 l n = firstn (Z.to_nat (Z.of_nat (length l) + n)) l.
Proof.
  intros Hn. unfold MemoryStore.slice0.
  destruct (Z.ltb_spec n 0) as [_|?]; [|lia]. f_equal. lia.
Qed.

Lemma memory_addEmail_firstn (e : StoredEmail.t) (l : list StoredEmail.t) :
  MemoryStore.addEmail e l = firstn 100 (e :: l).
Proof.
  unfold MemoryStore.addEmail, MemoryStore.maxEmails.
  destruct (Z.ltb_spec 100 (Z.of_nat (length (e :: l)))) as [Hgt|Hle].
  - apply (slice0_nonneg (e :: l) 100). lia.
  - symmetry. apply firstn_all2. lia.
Qed.

Lemma memory_add_all_firstn (es l : list StoredEmail.t) :
  es <> [] -> MemoryStore.add_all es l = firstn 100 (rev es ++ l).
Proof.
  induction es as [|e es IH] using rev_ind; [congruence|]. intros _.
  unfold MemoryStore.add_all in *. rewrite foldl_app. cbn [foldl].
  rewrite memory_addEmail_firstn, rev_app_distr. cbn [rev app].
  destruct es as [|e0 es'].
  - reflexivity.
  - rewrite IH by discriminate.
    change (e :: take 100 (rev (e0 :: es') ++ l))
      with ([e] ++ take 100 (rev (e0 :: es') ++ l))%list.
    rewrite firstn_app_firstn. reflexivity.
Qed.

(** X11. The in-memory store keeps the newest 100: after one insert or more,
    from any array, the array is the records inserted, newest first, followed
    by what was there, cut to 100. *)
Theorem memory_store_bounded (es l : list StoredEmail.t) :
  es <> [] ->
  MemoryStore.add_all es l = firstn 100 (rev es ++ l)
  /\ (length (MemoryStore.add_all es l) <= 100)%nat.
Proof.
  intros Hne. rewrite memory_add_all_firstn by exact Hne.
  split; [reflexivity | apply firstn_le_length].
Qed.

(** X12. What the in-memory [getEmails(limit)] reads: the first
    [min(limit, length)] records for a limit of 0 or more, and the array
    without its last [-limit] records for a negative limit. *)
Theorem memory_getEmails_semantics (l : list StoredEmail.t) (limit : Z) :
  (0 <= limit ->
   MemoryStore.getEmails limit l
   = firstn (Z.to_nat (Z.min limit (Z.of_nat (length l)))) l)
  /\ (limit < 0 ->
      MemoryStore.getEmails limit l
      = firstn (Z.to_nat (Z.of_nat (length l) + limit)) l).
Proof.
  split; intros Hl; unfold MemoryStore.getEmails.
  - unfold MemoryStore.slice0. destruct (Z.ltb_spec limit 0) as [?|_]; [lia|]. reflexivity.
  - apply slice0_neg, Hl.
Qed.

(** X13. In the in-memory store a record is found by id as long as it is in
    the array, the newest of its id first: right after its insert it is found,
    and once 100 records of other ids have been inserted it is not. *)
Theorem memory_getEmail_until_evicted (e : StoredEmail.t) (es l : list StoredEmail.t) :
  MemoryStore.getEmail (StoredEmail.id e) (MemoryStore.addEmail e l) = Some e
  /\ ((100 <= length es)%nat ->
      Forall (fun x => StoredEmail.id x <> StoredEmail.id e) es ->
      MemoryStore.getEmail (StoredEmail.id e)
        (MemoryStore.add_all es (MemoryStore.addEmail e l)) = None).
Proof.
  split.
  - rewrite memory_addEmail_firstn. unfold MemoryStore.getEmail. cbn [firstn find].
    rewrite String.eqb_refl. reflexivity.
  - intros Hlen Hall.
    rewrite memory_add_all_firstn by (intros ->; simpl in Hlen; lia).
    rewrite firstn_app, length_rev.
    replace (100 - length es)%nat with 0%nat by lia.
    rewrite firstn_O, app_nil_r. unfold MemoryStore.getEmail.
    apply find_none. apply Forall_take. apply List.Forall_forall. intros x Hx.
    apply String.eqb_neq. apply (proj1 (List.Forall_forall _ _) Hall).
    apply in_rev. exact Hx.
Qed.

Context {node : Node} {backend : Backend}.
Hypothesis up : healthy.

Lemma stores_same_list (sched : list (N * StoredEmail.t)) (w : World) :
  emails (redis (insert_all sched w))
  = MemoryStore.add_all (map snd sched) (emails (redis w)).
Proof.
  revert w. induction sched as [|[dt e] sched IH]; intros w; [reflexivity|].
  cbn [insert_all map snd]. unfold MemoryStore.add_all. cbn [foldl].
  fold (MemoryStore.add_all (map snd sched) (MemoryStore.addEmail e (emails (redis w)))).
  destruct (addEmail_ok up e (elapse dt w)) as (w' & -> & Hem & _).
  cbn [snd]. rewrite IH, Hem, memory_addEmail_firstn. reflexivity.
Qed.

(** X14. The two stores side by side: after the same inserts on the same
    list, the Redis store on a healthy backend and the in-memory store hold
    the same list, and [getEmails(limit)] answers alike for every limit
    except 0. *)
Theorem stores_agree_on_list (w : World) (sched : list (N * StoredEmail.t)) (limit : Z) :
  limit <> 0 ->
  let mem := MemoryStore.add_all (map snd sched) (emails (redis w)) in
  emails (redis (insert_all sched w)) = mem
  /\ fst (getEmails limit (insert_all sched w)) = Ok (MemoryStore.getEmails limit mem).
Proof.
  intros Hl mem. split; [apply stores_same_list|].
  rewrite (getEmails_ok up), stores_same_list. fold mem. f_equal.
  unfold MemoryStore.getEmails.
  destruct (Z.lt_ge_cases limit 0) as [Hneg|Hpos].
  - rewrite slice0_neg by exact Hneg. apply slice_nonpositive. lia.
  - rewrite slice0_nonneg by exact Hpos. rewrite slice_from_0 by lia. f_equal. lia.
Qed.

End MemoryFacts.

(** ** More on the extraction *)

Section ExtractMore.

Context {node : Node}.

Lemma substring0_short (n : nat) (s : string) :
  (String.length s <= n)%nat -> Js.substring0 n s = s.
Proof.
  unfold Js.substring0. revert s. induction n as [|n IH]; intros s Hs.
  - destruct s; [reflexivity | simpl in Hs; lia].
  - destruct s as [|c s]; [reflexivity|]. simpl. f_equal. apply IH. simpl in Hs. lia.
Qed.

(** X15. The body of an extracted record never has more than 1000
    characters, whatever the message; and a text of 1000 characters or fewer
    is kept whole. *)
Theorem body_never_exceeds_1000 (m : Gmail.Message) :
  exists b,
    EmailDetails.body (extractEmailDetails m) = Some b
    /\ (String.length b <= 1000)%nat
    /\ forall d, body_source m (Some d) ->
                 (String.length (base64_utf8 d) <= 1000)%nat ->
                 b = base64_utf8 d.
Proof.
  exists (Js.substring0 1000 (extract_body (Gmail.payload m))).
  split; [reflexivity|]. split.
  - destruct (substring0_split 1000 (extract_body (Gmail.payload m))) as (_ & _ & ->).
    apply Nat.le_min_l.
  - intros d Hsrc Hlen. rewrite (extract_body_source _ _ Hsrc).
    apply substring0_short, Hlen.
Qed.

(** X16. The header lookup answers the value of the first header whose name
    is the name asked for, case aside, and the empty string when there is none. *)
Theorem getHeader_first_match (pre post : list Gmail.Header) (h : Gmail.Header)
        (name : string) :
  Forall (fun x => Js.toLowerCase (Gmail.name x) <> Js.toLowerCase name) pre ->
  (Js.toLowerCase (Gmail.name h) = Js.toLowerCase name ->
   getHeader (pre ++ h :: post) name = Gmail.value h)
  /\ getHeader pre name = "".
Proof.
  intros Hpre.
  assert (Hpre' : Forall (fun x => String.eqb (Js.toLowerCase (Gmail.name x))
                                              (Js.toLowerCase name) = false) pre).
  { eapply Forall_impl; [exact Hpre|]. intros x Hx. apply String.eqb_neq, Hx. }
  split.
  - intros Hh. unfold getHeader. rewrite find_first; [reflexivity | exact Hpre' |].
    apply String.eqb_eq, Hh.
  - unfold getHeader. rewrite find_none; [reflexivity | exact Hpre'].
Qed.

End ExtractMore.

(** ** More on the webhook *)

Section WebhookMore.

Context {node : Node} {provider : Provider} {backend : Backend}.



(** The non-test branch of [POST] on a healthy backend: what the
    reconciliation returned is stored, record by record. *)
Lemma POST_stores_fetched (up : healthy)
      (body : PubSub.Message) (inner : PubSub.Inner) (d : string)
      (n : GmailNotification) (w w1 : World) (es : list EmailDetails.t) :
  PubSub.message body = Some inner ->
  present (PubSub.data inner) d ->
  JSON_parse (base64_utf8 d) = Obj n ->
  Js.startsWith (String_ (historyId n)) "test" = false ->
  fetchNewEmails (historyId n) w = (Ok es, w1) ->
  now w1 = now w ->
  POST (Obj body) w
  = (Ok ok200,
     insert_all (map (fun e => (0%N, stored e (toISOString (now w)) (historyId n))) es) w1).
Proof.
  intros Hmsg Hd Hparse Htest Hfetch Hn.
  apply truthy_present in Hd as [Htruthy Hdata].
  unfold POST, try_catch at 1. unfold bind at 1. unfold ret at 1.
  rewrite Hmsg. unfold bind at 1. rewrite Htruthy, Hdata.
  unfold try_catch at 1, process. rewrite Hparse.
  unfold bind at 1. unfold ret at 1. rewrite Htest.
  unfold bind at 1. rewrite Hfetch.
  destruct es as [|e es'].
  - reflexivity.
  - cbn [length Nat.ltb Nat.leb]. rewrite (store_all up), Hn. reflexivity.
Qed.

(** X17. A notification that cannot be decoded is dropped: when the request
    body is not JSON or is [null], when the envelope carries no data, and when
    the data is not the JSON of an object, [POST] answers 200 and the world is
    as it was: nothing stored, nothing asked of the provider. *)
Theorem POST_drops_undecodable (w : World) :
  POST Malformed w = (Ok ok200, w)
  /\ POST Null w = (Ok ok200, w)
  /\ (forall body,
         PubSub.message body = None
         \/ (exists inner, PubSub.message body = Some inner /\ absent (PubSub.data inner)) ->
         POST (Obj body) w = (Ok ok200, w))
  /\ (forall body inner d,
         PubSub.message body = Some inner ->
         present (PubSub.data inner) d ->
         JSON_parse (base64_utf8 d) = Malformed \/ JSON_parse (base64_utf8 d) = Null ->
         POST (Obj body) w = (Ok ok200, w)).
Proof.
  split; [reflexivity|]. split; [reflexivity|]. split.
  - intros body [Hnone | (inner & Hmsg & Habs)];
      unfold POST, try_catch, bind, ret.
    + rewrite Hnone. reflexivity.
    + rewrite Hmsg, (truthy_absent _ Habs). reflexivity.
  - intros body inner d Hmsg Hd Hparse.
    apply truthy_present in Hd as [Htruthy Hdata].
    unfold POST, try_catch, bind, ret, process, throw.
    rewrite Hmsg, Htruthy, Hdata.
    destruct Hparse as [-> | ->]; reflexivity.
Qed.

(** X18. A cursor that is neither a test marker nor a string of digits: [POST]
    answers 200 and the world is as it was. *)
Theorem POST_invalid_cursor_stores_nothing
        (body : PubSub.Message) (inner : PubSub.Inner) (d : string)
        (n : GmailNotification) (w : World) :
  PubSub.message body = Some inner ->
  present (PubSub.data inner) d ->
  JSON_parse (base64_utf8 d) = Obj n ->
  Js.startsWith (String_ (historyId n)) "test" = false ->
  Js.matches_digits (String_ (historyId n)) = false ->
  POST (Obj body) w = (Ok ok200, w).
Proof.
  intros Hmsg Hd Hparse Htest Hdigits.
  apply truthy_present in Hd as [Htruthy Hdata].
  unfold POST, try_catch at 1. unfold bind at 1. unfold ret at 1.
  rewrite Hmsg. unfold bind at 1. rewrite Htruthy, Hdata.
  unfold try_catch at 1, process. rewrite Hparse.
  unfold bind at 1. unfold ret at 1. rewrite Htest.
  unfold bind at 1.
  unfold fetchNewEmails, try_catch, fetch_body. rewrite Hdigits. reflexivity.
Qed.

(** X19. Every cursor whose string form starts with [test] is a test
    notification: [POST] asks nothing of the provider, and on a healthy
    backend the one record it puts in front of the list carries the cursor as
    its [historyId], the notification's address as its recipient and an id
    made of [test-] and the clock. *)
Theorem test_prefix_skips_provider
        (body : PubSub.Message) (inner : PubSub.Inner) (d : string)
        (n : GmailNotification) (w : World) :
  PubSub.message body = Some inner ->
  present (PubSub.data inner) d ->
  JSON_parse (base64_utf8 d) = Obj n ->
  Js.startsWith (String_ (historyId n)) "test" = true ->
  exists w',
    POST (Obj body) w = (Ok ok200, w')
    /\ calls w' = calls w
    /\ (healthy ->
        exists p,
          emails (redis w') = firstn 100 (p :: emails (redis w))
          /\ StoredEmail.historyId p = historyId n
          /\ StoredEmail.to p = emailAddress n
          /\ StoredEmail.id p = "test-" +:+ pretty (now w)).
Proof.
  intros Hmsg Hd Hparse Htest.
  apply truthy_present in Hd as [Htruthy Hdata].
  unfold POST, try_catch at 1. unfold bind at 1. unfold ret at 1.
  rewrite Hmsg. unfold bind at 1. rewrite Htruthy, Hdata.
  unfold try_catch at 1, process. rewrite Hparse.
  unfold bind at 1. unfold ret at 1. rewrite Htest.
  unfold bind at 1. unfold Date_now at 1.
  unfold bind at 1. unfold new_Date_toISOString at 1.
  unfold bind at 1. unfold new_Date_toISOString at 1.
  unfold bind at 1.
  set (p := testEmail n (now w) (toISOString (now w)) (toISOString (now w))).
  destruct (addEmail_frame p w) as (b & w' & Hadd & Hcalls & Hnow).
  exists w'. rewrite Hadd. unfold ret.
  split; [reflexivity|]. split; [exact Hcalls|].
  intros up. destruct (addEmail_ok up p w) as (w2 & Hadd2 & Hem & _).
  rewrite Hadd in Hadd2. injection Hadd2 as _ <-.
  exists p. split; [exact Hem|]. repeat split.
Qed.

End WebhookMore.

(** ** The two paths of the reconciliation *)

Section ReconcilePaths.

Context {node : Node} {provider : Provider} {backend : Backend}.

Lemma fetch_and_push_ok (i : string) (m : Gmail.Message) (w : World)
      (es : list EmailDetails.t) :
  messages_get (tick w) i = Some m ->
  fetch_and_push i (w, es)
  = (Ok tt, (advance w (gets [i]), (es ++ [extractEmailDetails m])%list)).
Proof.
  intros Hget. unfold fetch_and_push, bind, lift, provider_call, push.
  cbn [fst snd]. rewrite Hget. reflexivity.
Qed.

Section AllAnswered.

Variable msg : string -> Gmail.Message.
Hypothesis answered : forall n i, messages_get n i = Some (msg i).






End AllAnswered.

(** X20. The fallback: when the history query answers no history record and
    the inbox lists an unread message, the reconciliation fetches the first
    message listed and returns its details alone, after exactly three
    requests; on a healthy backend [POST] then stores exactly one record, with
    the cursor of the notification as its [historyId]. *)
Theorem fallback_fetches_latest_unread
        (h : HistoryId) (w : World) (hist : Api.HistoryResponse)
        (ml : Api.MessageList) (ref : Api.MessageRef) (rest : list Api.MessageRef)
        (i : string) (m : Gmail.Message) :
  Js.matches_digits (String_ h) = true ->
  history_list (tick w) (String_ h) = Some hist ->
  Api.history hist = None \/ Api.history hist = Some [] ->
  messages_list (S (tick w)) = Some ml ->
  Api.messages ml = Some (ref :: rest) ->
  present (Api.id ref) i ->
  messages_get (S (S (tick w))) i = Some m ->
  let w1 := advance w [(HistoryList (String_ h), true); (MessagesList, true);
                       (MessagesGet i, true)] in
  fetchNewEmails h w = (Ok [extractEmailDetails m], w1)
  /\ (healthy ->
      forall body inner d n,
        PubSub.message body = Some inner ->
        present (PubSub.data inner) d ->
        JSON_parse (base64_utf8 d) = Obj n ->
        historyId n = h ->
        Js.startsWith (String_ h) "test" = false ->
        exists w2,
          POST (Obj body) w = (Ok ok200, w2)
          /\ emails (redis w2)
             = firstn 100 (stored (extractEmailDetails m) (toISOString (now w)) h
                             :: emails (redis w))).
Proof.
  intros Hdigits Hhist Hempty Hlist Hmsgs Hid Hget w1.
  apply truthy_present in Hid as [Htruthy Hor].
  assert (Hfetch : fetchNewEmails h w = (Ok [extractEmailDetails m], w1)).
  { unfold fetchNewEmails, try_catch, fetch_body. rewrite Hdigits. cbn [negb].
    unfold bind at 1. unfold lift at 1, provider_call at 1. cbn [fst snd].
    rewrite Hhist.
    assert (Hlatest :
              fetch_latest
                ({| redis := redis w; now := now w; tick := S (tick w);
                    calls := (HistoryList (String_ h), true) :: calls w |}, [])
              = (Ok [extractEmailDetails m], (w1, [extractEmailDetails m]))).
    { unfold fetch_latest. unfold bind at 1. unfold lift at 1, provider_call at 1.
      cbn [fst snd tick]. rewrite Hlist, Hmsgs, Htruthy, Hor.
      unfold bind at 1. rewrite (fetch_and_push_ok i m); [|exact Hget].
      reflexivity. }
    destruct Hempty as [-> | ->]; rewrite Hlatest; reflexivity. }
  split; [exact Hfetch|].
  intros up body inner d n Hmsg Hd Hparse Hn Htest. subst h.
  eexists. split.
  - apply (POST_stores_fetched up body inner d n w w1 _ Hmsg Hd Hparse Htest Hfetch).
    reflexivity.
  - cbn [map insert_all]. rewrite elapse_0.
    destruct (addEmail_ok up (stored (extractEmailDetails m) (toISOString (now w))
                                     (historyId n)) w1) as (w2 & -> & Hem & _).
    cbn [snd]. exact Hem.
Qed.

(** X21. The fallback with nothing to fetch: when the history query answers
    no history record and the inbox lists no message, or a first message
    without an id, the reconciliation returns the empty sequence after exactly
    two requests. *)
Theorem fallback_nothing_unread
        (h : HistoryId) (w : World) (hist : Api.HistoryResponse) (ml : Api.MessageList) :
  Js.matches_digits (String_ h) = true ->
  history_list (tick w) (String_ h) = Some hist ->
  Api.history hist = None \/ Api.history hist = Some [] ->
  messages_list (S (tick w)) = Some ml ->
  Api.messages ml = None \/ Api.messages ml = Some []
  \/ (exists ref rest, Api.messages ml = Some (ref :: rest) /\ absent (Api.id ref)) ->
  fetchNewEmails h w
  = (Ok [], advance w [(HistoryList (String_ h), true); (MessagesList, true)]).
Proof.
  intros Hdigits Hhist Hempty Hlist Hnone.
  unfold fetchNewEmails, try_catch, fetch_body. rewrite Hdigits. cbn [negb].
  unfold bind at 1. unfold lift at 1, provider_call at 1. cbn [fst snd].
  rewrite Hhist.
  assert (Hlatest :
            fetch_latest
              ({| redis := redis w; now := now w; tick := S (tick w);
                  calls := (HistoryList (String_ h), true) :: calls w |}, [])
            = (Ok [], (advance w [(HistoryList (String_ h), true); (MessagesList, true)],
                       []))).
  { unfold fetch_latest. unfold bind at 1. unfold lift at 1, provider_call at 1.
    cbn [fst snd tick]. rewrite Hlist.
    destruct Hnone as [-> | [-> | (ref & rest & -> & Habs)]]; try reflexivity.
    rewrite (truthy_absent _ Habs). reflexivity. }
  destruct Hempty as [-> | ->]; rewrite Hlatest; reflexivity.
Qed.

End ReconcilePaths.

(** ** The routes over the store *)

Ltac split_faults :=
  cbn;
  repeat (match goal with
          | |- context [redis_fault ?n] => destruct (redis_fault n)
          end; cbn).

Section RouteFacts.

Context {node : Node} {backend : Backend}.

Lemma slice_length_le {A} (l : list A) (stop : Z) :
  0 <= stop -> (length (Cmd.slice l 0 stop) <= Z.to_nat (stop + 1))%nat.
Proof.
  intros Hs. rewrite slice_from_0 by exact Hs. rewrite length_firstn. lia.
Qed.

(** [getEmails] only reads: it answers the range, or nothing when the
    backend fails, and leaves the backend as it was. *)
Lemma getEmails_reads (limit : Z) (w : World) :
  exists l w',
    getEmails limit w = (Ok l, w')
    /\ redis w' = redis w /\ now w' = now w /\ calls w' = calls w
    /\ (l = [] \/ l = Cmd.slice (emails (redis w)) 0 (limit - 1)).
Proof.
  unfold getEmails, try_catch, bind, ret, redis_call.
  destruct (redis_fault (tick w)); cbn; do 2 eexists; repeat split; auto.
Qed.

Lemma getStats_reads (w : World) :
  exists st w',
    getStats w = (Ok st, w')
    /\ redis w' = redis w /\ now w' = now w /\ calls w' = calls w.
Proof.
  unfold getStats, try_catch, bind, ret, redis_call.
  split_faults; do 2 eexists; repeat split.
Qed.

(** X23. The cleanup report: [POST] always answers with a report, never with
    an error; it counts at most 100 records, of which the test records and the
    others add up to the total; it leaves the backend as it was; and a
    placeholder stored for a test notification counts as a test record. *)
Theorem cleanup_POST_report (w : World) :
  (exists total test real message timestamp w',
      Cleanup.POST w = (Ok (Cleanup.Report total test real message timestamp), w')
      /\ (test <= total <= 100)%nat
      /\ real = Z.of_nat (total - test)
      /\ redis w' = redis w)
  /\ (healthy ->
      exists real message timestamp w',
        Cleanup.POST w
        = (Ok (Cleanup.Report
                 (length (firstn 100 (emails (redis w))))
                 (length (filter (fun e => Cleanup.is_test e = true)
                                 (firstn 100 (emails (redis w)))))
                 real message timestamp), w'))
  /\ (forall n ms iso1 iso2, Cleanup.is_test (testEmail n ms iso1 iso2) = true).
Proof.
  split; [|split].
  - unfold Cleanup.POST, try_catch. unfold bind at 1.
    destruct (getEmails_reads 100 w) as (l & w' & -> & Hr & _ & _ & Hl).
    unfold bind, new_Date_toISOString, ret.
    do 6 eexists. split; [reflexivity|].
    pose proof (length_filter (fun e => Cleanup.is_test e = true) l) as Hf.
    split; [|split; [lia | exact Hr]].
    split; [exact Hf|].
    destruct Hl as [-> | ->]; [simpl; lia|].
    apply (slice_length_le (emails (redis w)) 99). lia.
  - intros up. unfold Cleanup.POST, try_catch. unfold bind at 1.
    pose proof (getEmails_ok up 100 w) as Hget.
    destruct (getEmails 100 w) as [o w']. cbn [fst] in Hget. subst o.
    rewrite slice_from_0 by lia. change (Z.to_nat (100 - 1 + 1)) with 100%nat.
    unfold bind, new_Date_toISOString, ret. do 4 eexists. reflexivity.
  - intros n ms iso1 iso2. unfold Cleanup.is_test.
    apply orb_true_iff. right. reflexivity.
Qed.

(** X24. The two ways to clear. [DELETE] of the cleanup route answers
    "cleared" whatever [clear()] returned, also when the backend failed and
    nothing was deleted; [DELETE] of the emails route answers with what
    [clear()] returned. Neither ever answers with status 500. *)
Theorem DELETE_routes (w : World) :
  (exists timestamp,
      Cleanup.DELETE w
      = (Ok (Cleanup.Cleared "All emails cleared from Redis" timestamp), snd (clear w)))
  /\ (exists success message timestamp,
         EmailsRoute.DELETE w
         = (Ok (EmailsRoute.Answer success message timestamp), snd (clear w))
         /\ fst (clear w) = Ok success
         /\ message = (if success then "Email store cleared" else "Failed to clear store"))
  /\ (outage ->
      redis (snd (Cleanup.DELETE w)) = redis w
      /\ exists message timestamp,
          fst (EmailsRoute.DELETE w) = Ok (EmailsRoute.Answer false message timestamp)).
Proof.
  assert (Hclear : exists b w', clear w = (Ok b, w') /\ now w' = now w).
  { unfold clear, try_catch, bind, ret.
    step_redis; [|do 2 eexists; (split; [reflexivity | congruence])].
    destruct (0 <? length a)%nat; repeat step_redis;
      do 2 eexists; (split; [reflexivity | congruence]). }
  destruct Hclear as (b & w' & Hclear & Hnow).
  split; [|split].
  - unfold Cleanup.DELETE, try_catch, bind, new_Date_toISOString, ret.
    rewrite Hclear. eexists. reflexivity.
  - unfold EmailsRoute.DELETE, try_catch, bind, new_Date_toISOString, ret.
    rewrite Hclear. do 3 eexists. repeat split.
  - intros Hdown.
    unfold Cleanup.DELETE, EmailsRoute.DELETE, clear, try_catch, bind,
      new_Date_toISOString, ret, redis_call.
    rewrite !Hdown. cbn. split; [reflexivity|]. do 2 eexists. reflexivity.
Qed.

Context {env : Env}.

Lemma testConnection_cases (s : Probed) :
  exists b s',
    testConnection s = (Ok b, s')
    /\ redis (fst s') = redis (fst s)
    /\ (b = true <->
        redis_fault (tick (fst s)) = false /\ redis_fault (S (tick (fst s))) = false).
Proof.
  unfold testConnection, try_catch, bind, ret, probe_call. cbn.
  destruct (redis_fault (tick (fst s))) eqn:H0; cbn.
  - do 2 eexists. repeat split; try reflexivity; intros; try discriminate.
    destruct H as [? _]. discriminate.
  - destruct (redis_fault (S (tick (fst s)))) eqn:H1; cbn.
    + do 2 eexists. repeat split; try reflexivity; intros; try discriminate.
      destruct H as [_ ?]. discriminate.
    + unfold Cmd.live. cbn.
      destruct (Z.ltb_spec (now (fst s)) (now (fst s) + 10 * 1000)) as [_|?]; [|lia].
      do 2 eexists. repeat split; reflexivity.
Qed.

(** X25. The connection test answers [true] exactly when the backend answers
    both of its commands; it never throws, and it leaves the list, the by-id
    entries and the last-received scalar alone. *)
Theorem testConnection_reports (s : Probed) :
  exists b s',
    testConnection s = (Ok b, s')
    /\ redis (fst s') = redis (fst s)
    /\ (b = true <->
        redis_fault (tick (fst s)) = false /\ redis_fault (S (tick (fst s))) = false).
Proof. apply testConnection_cases. Qed.


(** X26. The diagnostics route always answers with its report and status
    200: the error branch is never taken, whatever the backend does. The
    report lists at most 5 records, and the route leaves the list, the by-id
    entries and the last-received scalar alone. *)
Theorem TestRedis_GET_always_reports (s : Probed) :
  exists connected url urlPrefix stats emailsList timestamp s',
    TestRedis.GET s
    = (Ok (TestRedis.Report connected url urlPrefix stats
             (length emailsList) emailsList timestamp), s')
    /\ (length emailsList <= 5)%nat
    /\ redis (fst s') = redis (fst s)
    /\ TestRedis.status (TestRedis.Report connected url urlPrefix stats
                           (length emailsList) emailsList timestamp) = 200%nat.
Proof.
  destruct s as [w p].
  unfold TestRedis.GET, try_catch at 1. unfold bind at 1.
  destruct (testConnection_cases (w, p)) as (b & [w1 p1] & -> & Hr1 & _).
  cbn [fst] in Hr1.
  unfold bind at 1, on_world at 1. cbn [fst snd].
  destruct (getStats_reads w1) as (st & w2 & -> & Hr2 & _).
  unfold bind at 1, on_world at 1. cbn [fst snd].
  destruct (getEmails_reads 5 w2) as (l & w3 & -> & Hr3 & _ & _ & Hl).
  unfold bind, on_world, new_Date_toISOString, ret. cbn [fst snd].
  do 7 eexists. split; [reflexivity|]. split; [|split; [|reflexivity]].
  - destruct Hl as [-> | ->]; [simpl; lia|].
    apply (slice_length_le (emails (redis w2)) 4). lia.
  - cbn [fst]. congruence.
Qed.

End RouteFacts.

(** ** The dashboard *)

Section DashboardFacts.

Lemma lower_char_idempotent (c : ascii) : Js.lower_char (Js.lower_char c) = Js.lower_char c.
Proof. destruct c as [[] [] [] [] [] [] [] []]; reflexivity. Qed.

Lemma toLowerCase_idempotent (s : string) :
  Js.toLowerCase (Js.toLowerCase s) = Js.toLowerCase s.
Proof.
  induction s as [|c s IH]; [reflexivity|]. simpl.
  rewrite lower_char_idempotent, IH. reflexivity.
Qed.

Lemma toLowerCase_empty (s : string) :
  String.eqb (Js.toLowerCase s) "" = String.eqb s "".
Proof. destruct s; reflexivity. Qed.

(** X27. The search of the dashboard: what it shows is taken from the list
    in the order of the list; the empty query shows all; the case of the query
    does not matter; a record whose subject, sender or snippet contains the
    query, case aside, is shown; and searching twice changes nothing. *)
Theorem search_filter (emails : list StoredEmail.t) (q : string) :
  sublist (Dashboard.filteredEmails emails q) emails
  /\ Dashboard.filteredEmails emails "" = emails
  /\ Dashboard.filteredEmails emails (Js.toLowerCase q) = Dashboard.filteredEmails emails q
  /\ (forall e, e ∈ emails ->
                Js.includes (Js.toLowerCase (StoredEmail.subject e)) (Js.toLowerCase q) = true
                \/ Js.includes (Js.toLowerCase (StoredEmail.from e)) (Js.toLowerCase q) = true
                \/ Js.includes (Js.toLowerCase (StoredEmail.snippet e)) (Js.toLowerCase q) = true ->
                e ∈ Dashboard.filteredEmails emails q)
  /\ Dashboard.filteredEmails (Dashboard.filteredEmails emails q) q
     = Dashboard.filteredEmails emails q.
Proof.
  unfold Dashboard.filteredEmails.
  split; [|split; [|split; [|split]]].
  - destruct (String.eqb q ""); [reflexivity | apply sublist_filter].
  - reflexivity.
  - rewrite toLowerCase_empty, toLowerCase_idempotent. reflexivity.
  - intros e He Hmatch. destruct (String.eqb q ""); [exact He|].
    apply list_elem_of_filter. split; [|exact He].
    unfold Dashboard.matches.
    destruct Hmatch as [-> | [-> | ->]];
      rewrite ?orb_true_r; reflexivity.
  - destruct (String.eqb q ""); [reflexivity|].
    apply list_filter_filter_l. intros e He. exact He.
Qed.

Context {browser : Browser}.

(** X28. The relative dates of the dashboard: a date less than a minute old,
    or in the future, reads [now]; then whole minutes up to 59, whole hours up
    to 23 and whole days up to 6, each counted from the milliseconds elapsed;
    from 7 days on, and for a date that cannot be read, the locale date. *)
Theorem formatDate_buckets (now_ms : Z) (dateString : string) :
  (Date_getTime dateString = None ->
   Dashboard.formatDate now_ms dateString = toLocaleDateString None)
  /\ forall t, Date_getTime dateString = Some t ->
       let diff := now_ms - t in
       (diff < 60000 -> Dashboard.formatDate now_ms dateString = "now")
       /\ (60000 <= diff < 3600000 ->
           Dashboard.formatDate now_ms dateString = pretty (diff / 60000) +:+ "m"
           /\ 1 <= diff / 60000 <= 59)
       /\ (3600000 <= diff < 86400000 ->
           Dashboard.formatDate now_ms dateString = pretty (diff / 3600000) +:+ "h"
           /\ 1 <= diff / 3600000 <= 23)
       /\ (86400000 <= diff < 604800000 ->
           Dashboard.formatDate now_ms dateString = pretty (diff / 86400000) +:+ "d"
           /\ 1 <= diff / 86400000 <= 6)
       /\ (604800000 <= diff ->
           Dashboard.formatDate now_ms dateString = toLocaleDateString (Some t)).
Proof.
  split.
  { intros Hnone. unfold Dashboard.formatDate. rewrite Hnone. reflexivity. }
  intros t Ht diff. unfold Dashboard.formatDate. rewrite Ht. fold diff.
  assert (Hh : diff / 60000 / 60 = diff / 3600000)
    by (rewrite Z.div_div by lia; reflexivity).
  assert (Hd : diff / 60000 / 60 / 24 = diff / 86400000)
    by (rewrite !Z.div_div by lia; reflexivity).
  rewrite Hd, Hh.
  assert (Bm : forall k, diff / 60000 < k <-> diff < 60000 * k).
  { intros k. split; intros Hk.
    - apply Z.nle_gt. intros Hc. apply Z.div_le_lower_bound in Hc; lia.
    - apply Z.div_lt_upper_bound; lia. }
  assert (Bh : forall k, diff / 3600000 < k <-> diff < 3600000 * k).
  { intros k. split; intros Hk.
    - apply Z.nle_gt. intros Hc. apply Z.div_le_lower_bound in Hc; lia.
    - apply Z.div_lt_upper_bound; lia. }
  assert (Bd : forall k, diff / 86400000 < k <-> diff < 86400000 * k).
  { intros k. split; intros Hk.
    - apply Z.nle_gt. intros Hc. apply Z.div_le_lower_bound in Hc; lia.
    - apply Z.div_lt_upper_bound; lia. }
  pose proof (Bm 1) as Bm1. pose proof (Bm 60) as Bm60.
  pose proof (Bh 1) as Bh1. pose proof (Bh 24) as Bh24.
  pose proof (Bd 1) as Bd1. pose proof (Bd 7) as Bd7.
  destruct (Z.ltb_spec (diff / 60000) 1) as [C1|C1];
    [|destruct (Z.ltb_spec (diff / 60000) 60) as [C2|C2];
      [|destruct (Z.ltb_spec (diff / 3600000) 24) as [C3|C3];
        [|destruct (Z.ltb_spec (diff / 86400000) 7) as [C4|C4]]]];
    repeat split; intros; try reflexivity; lia.
Qed.

End DashboardFacts.

(** ** The properties above at sample inputs *)

Lemma insert_then_lookup_witness :
  let w' := snd (addEmail (node := Sample.node) (backend := Sample.backend)
                   (Sample.email 0) Sample.empty) in
  fst (getEmails (backend := Sample.backend) 1 w') = Ok [Sample.email 0]
  /\ fst (getEmail (backend := Sample.backend) "m0" (elapse 5 w')) = Ok (Some (Sample.email 0)).
Proof.
  destruct (insert_then_lookup (node := Sample.node) (backend := Sample.backend)
              sample_backend_healthy Sample.empty (Sample.email 0) 5%N)
    as (_ & Hlist & Hget & _).
  split; [exact Hlist|]. apply Hget. reflexivity.
Defined.

Lemma store_list_bounded_witness :
  (length (emails (redis (insert_all (node := Sample.node) (backend := Sample.backend)
                            (Sample.sched 3) Sample.empty))) <= 100)%nat.
Proof.
  destruct (store_list_bounded (node := Sample.node) (backend := Sample.backend)
              sample_backend_healthy Sample.empty (Sample.sched 3) 10)
    as [Hlen _]; [discriminate | exact Hlen].
Defined.

Lemma getEmails_limit_semantics_witness :
  let w := insert_all (node := Sample.node) (backend := Sample.backend)
             (Sample.sched 3) Sample.empty in
  fst (getEmails (backend := Sample.backend) 2 w) = Ok [Sample.email 2; Sample.email 1]
  /\ fst (getEmails (backend := Sample.backend) (-1) w) = Ok [Sample.email 2; Sample.email 1].
Proof.
  destruct (getEmails_limit_semantics (backend := Sample.backend) sample_backend_healthy
              (insert_all (node := Sample.node) (backend := Sample.backend)
                 (Sample.sched 3) Sample.empty) 2) as [Hpos _].
  destruct (getEmails_limit_semantics (backend := Sample.backend) sample_backend_healthy
              (insert_all (node := Sample.node) (backend := Sample.backend)
                 (Sample.sched 3) Sample.empty) (-1)) as [_ Hneg].
  split; [apply Hpos; lia | apply Hneg; lia].
Defined.

Lemma clear_deletes_listed_ids_witness :
  let w := insert_all (node := Sample.node) (backend := Sample.backend)
             (Sample.sched 3) Sample.empty in
  fst (clear (backend := Sample.backend) w) = Ok true
  /\ byId (redis (snd (clear (backend := Sample.backend) w))) !! "m1" = None.
Proof.
  destruct (clear_deletes_listed_ids (backend := Sample.backend) sample_backend_healthy
              (insert_all (node := Sample.node) (backend := Sample.backend)
                 (Sample.sched 3) Sample.empty) "m1")
    as (Hret & _ & _ & Hby).
  split; [exact Hret | exact Hby].
Defined.

Lemma getStats_empty_store_witness :
  fst (getStats (backend := Sample2.fails_at 2) Sample.empty)
  = Ok {| Stats.totalEmails := 0; Stats.newestEmail := None;
          Stats.oldestEmail := None; Stats.lastReceived := None |}.
Proof.
  apply (getStats_empty_store (backend := Sample2.fails_at 2) Sample.empty);
    reflexivity.
Defined.

Lemma getStats_after_insert_witness :
  fst (getStats (backend := Sample.backend)
         (snd (addEmail (node := Sample.node) (backend := Sample.backend)
                 (Sample.email 0) Sample.empty)))
  = Ok {| Stats.totalEmails := 1; Stats.newestEmail := Some "date";
          Stats.oldestEmail := Some "date"; Stats.lastReceived := Some "0" |}.
Proof.
  exact (getStats_after_insert (node := Sample.node) (backend := Sample.backend)
           sample_backend_healthy Sample.empty (Sample.email 0)).
Defined.

Lemma memory_store_bounded_witness :
  MemoryStore.add_all [Sample.email 0; Sample.email 1] []
  = [Sample.email 1; Sample.email 0].
Proof.
  destruct (memory_store_bounded [Sample.email 0; Sample.email 1] [])
    as [Hlist _]; [discriminate | exact Hlist].
Defined.

Lemma stores_agree_on_list_witness :
  fst (getEmails (backend := Sample.backend) 1
         (insert_all (node := Sample.node) (backend := Sample.backend)
            (Sample.sched 2) Sample.empty))
  = Ok (MemoryStore.getEmails 1
          (MemoryStore.add_all [Sample.email 0; Sample.email 1] [])).
Proof.
  destruct (stores_agree_on_list (node := Sample.node) (backend := Sample.backend)
              sample_backend_healthy Sample.empty (Sample.sched 2) 1)
    as [_ Hget]; [lia | exact Hget].
Defined.

Lemma getHeader_first_match_witness :
  getHeader [ {| Gmail.name := "From"; Gmail.value := "a@example.com" |};
              {| Gmail.name := "SUBJECT"; Gmail.value := "first" |};
              {| Gmail.name := "Subject"; Gmail.value := "second" |} ] "subject"
  = "first".
Proof.
  destruct (getHeader_first_match
              [ {| Gmail.name := "From"; Gmail.value := "a@example.com" |} ]
              [ {| Gmail.name := "Subject"; Gmail.value := "second" |} ]
              {| Gmail.name := "SUBJECT"; Gmail.value := "first" |} "subject")
    as [Hfirst _].
  - constructor; [|constructor]. vm_compute. discriminate.
  - apply Hfirst. reflexivity.
Defined.

Lemma POST_invalid_cursor_stores_nothing_witness :
  POST (node := Sample.node) (provider := Sample.flaky) (backend := Sample.backend)
       (Sample.request "abc") Sample.empty = (Ok ok200, Sample.empty).
Proof.
  apply (POST_invalid_cursor_stores_nothing
           (node := Sample.node) (provider := Sample.flaky) (backend := Sample.backend)
           _ {| PubSub.data := Some "abc"; PubSub.messageId := "1";
                PubSub.publishTime := "2024-01-01T00:00:00Z" |}
           "abc" {| emailAddress := "me@example.com"; historyId := HStr "abc" |}).
  - reflexivity.
  - split; [reflexivity | discriminate].
  - reflexivity.
  - reflexivity.
  - reflexivity.
Defined.

Lemma test_prefix_skips_provider_witness :
  exists w',
    POST (node := Sample.node) (provider := Sample.flaky) (backend := Sample.backend)
         (Sample.request "testing") Sample.empty = (Ok ok200, w')
    /\ calls w' = [].
Proof.
  destruct (test_prefix_skips_provider
              (node := Sample.node) (provider := Sample.flaky) (backend := Sample.backend)
              {| PubSub.message := Some {| PubSub.data := Some "testing";
                                           PubSub.messageId := "1";
                                           PubSub.publishTime := "2024-01-01T00:00:00Z" |};
                 PubSub.subscription := "projects/p/subscriptions/s" |}
              {| PubSub.data := Some "testing"; PubSub.messageId := "1";
                 PubSub.publishTime := "2024-01-01T00:00:00Z" |}
              "testing" {| emailAddress := "me@example.com"; historyId := HStr "testing" |}
              Sample.empty)
    as (w' & HPOST & Hcalls & _).
  - reflexivity.
  - split; [reflexivity | discriminate].
  - reflexivity.
  - reflexivity.
  - exists w'. split; [exact HPOST | exact Hcalls].
Defined.

Lemma fallback_fetches_latest_unread_witness :
  fst (fetchNewEmails (node := Sample.node) (provider := Sample2.quiet)
         (HStr "42") Sample.empty)
  = Ok [extractEmailDetails (node := Sample.node)
          (Sample.message "m9" [] (Some "aGk=") None)].
Proof.
  destruct (fallback_fetches_latest_unread
              (node := Sample.node) (provider := Sample2.quiet) (backend := Sample.backend)
              (HStr "42") Sample.empty
              {| Api.history := None |}
              {| Api.messages := Some [ {| Api.id := Some "m9" |} ] |}
              {| Api.id := Some "m9" |} [] "m9"
              (Sample.message "m9" [] (Some "aGk=") None))
    as [Hfetch _].
  - reflexivity.
  - reflexivity.
  - left. reflexivity.
  - reflexivity.
  - reflexivity.
  - split; [reflexivity | discriminate].
  - reflexivity.
  - rewrite Hfetch. reflexivity.
Defined.

Lemma fallback_nothing_unread_witness :
  fst (fetchNewEmails (node := Sample.node) (provider := Sample2.silent)
         (HStr "42") Sample.empty) = Ok [].
Proof.
  rewrite (fallback_nothing_unread
             (node := Sample.node) (provider := Sample2.silent)
             (HStr "42") Sample.empty
             {| Api.history := Some [] |} {| Api.messages := None |}).
  - reflexivity.
  - reflexivity.
  - reflexivity.
  - right. reflexivity.
  - reflexivity.
  - left. reflexivity.
Defined.

